(** * tensorcircuit: gate table and layer generators

    A shallow embedding of [tensorcircuit/gates.py] and
    [tensorcircuit/applications/layers.py].

    Python floats are IEEE binary64 numbers: they are embedded as Rocq's
    primitive floats, so every angle below is computed, not axiomatised.
    Objects that Python creates by closure ([f] inside the [generate_*]
    functions, [partial(template, m, n)]) are embedded as records holding
    the captured variables together with a [call_*] function that runs the
    body of the closure. *)

From Stdlib Require Import PrimFloat Ascii String.
From stdpp Require Import gmap strings list sorting.

(** ** Python exceptions *)

Inductive exn : Set :=
  | IndexError | TypeError | KeyError | AttributeError | NameError | ValueError.

Inductive result (A : Type) : Type :=
  | Ok (a : A)
  | Raise (e : exn).
Arguments Ok {A} a.
Arguments Raise {A} e.

Definition bind {A B : Type} (m : result A) (k : A → result B) : result B :=
  match m with
  | Ok a => k a
  | Raise e => Raise e
  end.

Notation "x <-- m ;; k" := (bind m (λ x, k))
  (at level 100, m at next level, right associativity).

Definition raises {A : Type} (m : result A) : Prop :=
  match m with Ok _ => False | Raise _ => True end.

(** [for x in l: c = body(c, x)], stopping at the first exception. *)
Fixpoint for_each {A S : Type} (body : S → A → result S) (l : list A) (s : S)
  : result S :=
  match l with
  | [] => Ok s
  | x :: l' => s' <-- body s x ;; for_each body l' s'
  end.

(** ** Strings *)

(** [str.lower] on ASCII letters. *)
Definition lower_ascii (c : ascii) : ascii :=
  let n := nat_of_ascii c in
  if (65 <=? n)%nat && (n <=? 90)%nat then ascii_of_nat (n + 32) else c.

Fixpoint lower (s : string) : string :=
  match s with
  | EmptyString => EmptyString
  | String c s' => String (lower_ascii c) (lower s')
  end.

(** [s[i]] for a non-negative index. *)
Definition str_index (s : string) (i : nat) : result ascii :=
  match String.get i s with
  | Some c => Ok c
  | None => Raise IndexError
  end.

(** ** Floats *)

Definition np_pi : float := 0x1.921fb54442d18p+1%float.

(** ** The circuit object *)

(** Modelled from the spec: the [Circuit] class of [tensorcircuit/circuit.py],
    which is not part of the sources at hand.  The spec describes it as an
    object exposing a qubit count and named methods that apply a gate to
    given qubit indices with an optional rotation parameter.  A circuit is
    the qubit count and the sequence of method calls made on it so far;
    every method call appends one entry. *)
Module Circuit.

Record call : Set := Call {
  meth : string;
  qubits : list nat;
  theta : option float
}.

Record t : Set := Make {
  _nqubits : nat;
  applied : list call
}.

(** [getattr(circuit, m)] called on the qubits [qs] with [theta=th] *)
Definition apply (c : t) (m : string) (qs : list nat) (th : option float) : t :=
  {| _nqubits := _nqubits c; applied := applied c ++ [Call m qs th] |}.

Definition H (c : t) (q : nat) : t := apply c "H" [q] None.
Definition CNOT (c : t) (q1 q2 : nat) : t := apply c "CNOT" [q1; q2] None.
Definition rx (c : t) (q : nat) (th : float) : t := apply c "rx" [q] (Some th).
Definition rz (c : t) (q : nat) (th : float) : t := apply c "rz" [q] (Some th).

(** The circuit after the further calls [cs]. *)
Definition extend (c : t) (cs : list call) : t :=
  {| _nqubits := _nqubits c; applied := applied c ++ cs |}.

End Circuit.

(** ** The interaction graph *)

(** The part of a [networkx.Graph] the layers use: the edge view [g.edges]
    in its iteration order and the attribute dictionary [g[u][v]] of an
    edge, absent ([KeyError]) when [u] and [v] are not adjacent. *)
Module Graph.

Record t : Type := Make {
  edges : list (nat * nat);
  adj : nat → nat → option (gmap string float)
}.

(** [itertools.combinations(l, 2)] *)
Fixpoint combinations2 (l : list nat) : list (nat * nat) :=
  match l with
  | [] => []
  | x :: l' => map (pair x) l' ++ combinations2 l'
  end.

(** [nx.complete_graph(n)]: nodes [range(n)], one edge per pair, no
    edge attributes. *)
Definition complete_graph (n : nat) : t :=
  {| edges := combinations2 (seq 0 n);
     adj := λ u v,
       if bool_decide (u < n ∧ v < n ∧ u ≠ v) then Some ∅ else None |}.

(** [g[u][v]] *)
Definition getitem (g : t) (u v : nat) : result (gmap string float) :=
  match adj g u v with
  | Some d => Ok d
  | None => Raise KeyError
  end.

(** [d.get("weight", 1.0)] *)
Definition get_weight (d : gmap string float) : float :=
  default 1.0%float (d !! "weight").

End Graph.

(** * [tensorcircuit/applications/layers.py] *)

Module Layers.

(** The closure [f] built by [generate_double_gate]: it captures the two
    characters [d1] and [d2]. *)
Record double_gate : Set := DoubleGate {
  d1 : ascii;
  d2 : ascii;
  gate_doc : string
}.

(** The closures [f] built by [generate_gate_layer] (capturing [gate]) and
    by [generate_double_gate_layer] (capturing [gates]), with the
    attributes set on them. *)
Inductive layer_body : Set :=
  | SingleQubit (gate : string)
  | TwoQubit (gates : string).

Record layer : Set := Layer {
  body : layer_body;
  __doc__ : string;
  __repr__ : string;
  __trainable__ : bool
}.

(** What a name of the module can be bound to. *)
Inductive value : Set :=
  | VGate (f : double_gate)
  | VLayer (f : layer).

(** The module: its namespace ([thismodule]) and the global [_cset]. *)
Record state : Type := State {
  ns : gmap string value;
  _cset : list value
}.

(** Body of the function [f] of [generate_double_gate]. *)
Definition call_double_gate (f : double_gate) (circuit : Circuit.t)
    (qubit1 qubit2 : nat) (symbol : float) : Circuit.t :=
  let circuit :=
    if Ascii.eqb (d1 f) "x" then Circuit.H circuit qubit1
    else if Ascii.eqb (d1 f) "y" then Circuit.rx circuit qubit1 (- np_pi / 2)
    else circuit in
  let circuit :=
    if Ascii.eqb (d2 f) "x" then Circuit.H circuit qubit2
    else if Ascii.eqb (d2 f) "y" then Circuit.rx circuit qubit2 (- np_pi / 2)
    else circuit in
  let circuit := Circuit.CNOT circuit qubit1 qubit2 in
  let circuit := Circuit.rz circuit qubit2 symbol in
  let circuit := Circuit.CNOT circuit qubit1 qubit2 in
  let circuit :=
    if Ascii.eqb (d1 f) "x" then Circuit.H circuit qubit1
    else if Ascii.eqb (d1 f) "y" then Circuit.rx circuit qubit1 (np_pi / 2)
    else circuit in
  let circuit :=
    if Ascii.eqb (d2 f) "x" then Circuit.H circuit qubit2
    else if Ascii.eqb (d2 f) "y" then Circuit.rx circuit qubit2 (np_pi / 2)
    else circuit in
  circuit.

Definition generate_double_gate (gates : string) (ns : gmap string value)
  : result (gmap string value) :=
  d1 <-- str_index gates 0 ;;
  d2 <-- str_index gates 1 ;;
  let f := {| d1 := d1; d2 := d2; gate_doc := gates +:+ "gate" |} in
  Ok (<[gates +:+ "gate" := VGate f]> ns).

(** [getattr(thismodule, name)] *)
Definition getattr (ns : gmap string value) (name : string) : result value :=
  match ns !! name with
  | Some v => Ok v
  | None => Raise AttributeError
  end.

(** A global name read inside a function of the module. *)
Definition global (ns : gmap string value) (name : string) : result value :=
  match ns !! name with
  | Some v => Ok v
  | None => Raise NameError
  end.

Section WithCircuitClass.

(** [Circuit.sgates], the names of the gates without parameter: a class
    attribute of [Circuit], defined outside the sources at hand. *)
Variable sgates : list string.

Definition generate_gate_layer (gate : string) (ns : gmap string value)
  : gmap string value :=
  let f := {| body := SingleQubit gate;
              __doc__ := gate +:+ "layer";
              __repr__ := gate +:+ "layer";
              __trainable__ := if bool_decide (gate ∈ sgates) then false else true |} in
  <[gate +:+ "layer" := VLayer f]> ns.

Definition generate_double_gate_layer (gates : string) (ns : gmap string value)
  : gmap string value :=
  let f := {| body := TwoQubit gates;
              __doc__ := gates +:+ "layer";
              __repr__ := gates +:+ "layer";
              __trainable__ := true |} in
  <[gates +:+ "layer" := VLayer f]> ns.

(** [2 * symbol], where [symbol] may be [None]. *)
Definition twice (symbol : option float) : result float :=
  match symbol with
  | Some s => Ok (2 * s)%float
  | None => Raise TypeError
  end.

(** [-symbol], where [symbol] may be [None]. *)
Definition negate (symbol : option float) : result float :=
  match symbol with
  | Some s => Ok (- s)%float
  | None => Raise TypeError
  end.

(** One iteration of the loop over [g.edges] in the function [f] of
    [generate_double_gate_layer]. *)
Definition double_layer_step (ns : gmap string value) (gates : string)
    (symbol : option float) (g : Graph.t) (circuit : Circuit.t)
    (e : nat * nat) : result Circuit.t :=
  let '(qubit1, qubit2) := e in
  fn <-- getattr ns (gates +:+ "gate") ;;
  m <-- negate symbol ;;
  d <-- Graph.getitem g e.1 e.2 ;;
  let angle := (m * Graph.get_weight d * 2)%float in
  match fn with
  | VGate fn => Ok (call_double_gate fn circuit qubit1 qubit2 angle)
  | VLayer _ => Raise TypeError
  end.

(** Bodies of the functions [f] of [generate_gate_layer] and of
    [generate_double_gate_layer].  [ns] is the module namespace at the
    time of the call. *)
Definition call_layer (ns : gmap string value) (f : layer)
    (circuit : Circuit.t) (symbol : option float) (g : option Graph.t)
  : result Circuit.t :=
  match body f with
  | SingleQubit gate =>
      if bool_decide (lower gate ∈ sgates) then
        for_each (λ circuit n, Ok (Circuit.apply circuit gate [n] None))
          (seq 0 (Circuit._nqubits circuit)) circuit
      else
        for_each (λ circuit n,
            th <-- twice symbol ;;
            Ok (Circuit.apply circuit gate [n] (Some th)))
          (seq 0 (Circuit._nqubits circuit)) circuit
  | TwoQubit gates =>
      let g := match g with
               | None => Graph.complete_graph (Circuit._nqubits circuit)
               | Some g => g
               end in
      for_each (double_layer_step ns gates symbol g) (Graph.edges g) circuit
  end.

(** [not l] for an optional list. *)
Definition falsy {A : Type} (l : option (list A)) : bool :=
  match l with
  | None => true
  | Some [] => true
  | Some (_ :: _) => false
  end.

Definition set_choice (l : option (list value)) (st : state) : result state :=
  if falsy l then
    h <-- global (ns st) "Hlayer" ;;
    rx <-- global (ns st) "rxlayer" ;;
    rz <-- global (ns st) "rzlayer" ;;
    zz <-- global (ns st) "zzlayer" ;;
    Ok {| ns := ns st; _cset := [h; rx; rz; zz] |}
  else
    Ok {| ns := ns st; _cset := default [] l |}.

Definition get_choice (st : state) : list value := _cset st.

(** [itertools.product(l, l)] *)
Definition product (l : list string) : list (string * string) :=
  x ← l; y ← l; [(x, y)].

(** The statements run when the module is imported. *)
Definition load : result state :=
  let ns := foldl (λ ns gate, generate_gate_layer gate ns) ∅
              ["rx"; "ry"; "rz"; "H"] in
  ns <-- for_each (λ ns gates,
            let gates := gates.1 +:+ gates.2 in
            ns <-- generate_double_gate gates ns ;;
            Ok (generate_double_gate_layer gates ns))
          (product ["x"; "y"; "z"]) ns ;;
  set_choice None {| ns := ns; _cset := [] |}.

End WithCircuitClass.

End Layers.

(** * [tensorcircuit/gates.py] *)

(** ** numpy scalars and arrays *)

Module Np.

(** A [float64] or a [complex128] number. *)
Inductive scalar : Set :=
  | Real (x : float)
  | Complex (re im : float).

(** Promotion to [complex128]. *)
Definition parts (s : scalar) : float * float :=
  match s with
  | Real x => (x, 0%float)
  | Complex a b => (a, b)
  end.

Definition mul (a b : scalar) : scalar :=
  match a, b with
  | Real x, Real y => Real (x * y)
  | _, _ =>
      let '(ar, ai) := parts a in
      let '(br, bi) := parts b in
      Complex (ar * br - ai * bi) (ar * bi + ai * br)
  end.

Definition add (a b : scalar) : scalar :=
  match a, b with
  | Real x, Real y => Real (x + y)
  | _, _ =>
      let '(ar, ai) := parts a in
      let '(br, bi) := parts b in
      Complex (ar + br) (ai + bi)
  end.

Definition sub (a b : scalar) : scalar :=
  match a, b with
  | Real x, Real y => Real (x - y)
  | _, _ =>
      let '(ar, ai) := parts a in
      let '(br, bi) := parts b in
      Complex (ar - br) (ai - bi)
  end.

Definition neg (a : scalar) : scalar :=
  match a with
  | Real x => Real (- x)
  | Complex a b => Complex (- a) (- b)
  end.

(** The Python literal [1j]. *)
Definition j : scalar := Complex 0 1.

(** An array: its shape and its elements in row-major order. *)
Record ndarray : Set := Array {
  shape : list nat;
  data : list scalar
}.

(** [s * a], [a * s], [a * b] and [a + b]: all of them elementwise. *)
Definition scale (s : scalar) (a : ndarray) : ndarray :=
  {| shape := shape a; data := map (mul s) (data a) |}.

Definition scale_r (a : ndarray) (s : scalar) : ndarray :=
  {| shape := shape a; data := map (λ x, mul x s) (data a) |}.

Definition times (a b : ndarray) : ndarray :=
  {| shape := shape a; data := zip_with mul (data a) (data b) |}.

Definition plus (a b : ndarray) : ndarray :=
  {| shape := shape a; data := zip_with add (data a) (data b) |}.

Definition minus (a b : ndarray) : ndarray :=
  {| shape := shape a; data := zip_with sub (data a) (data b) |}.

Definition reshape (a : ndarray) (newshape : list nat) : ndarray :=
  {| shape := newshape; data := data a |}.

Definition astype (a : ndarray) (cast : scalar → scalar) : ndarray :=
  {| shape := shape a; data := map cast (data a) |}.

(** [np.array] of a list of rows of [float64] numbers. *)
Definition matrix (rows : list (list float)) : ndarray :=
  {| shape := [length rows; length (default [] (head rows))];
     data := map Real (concat rows) |}.

Definition vector (l : list scalar) : ndarray :=
  {| shape := [length l]; data := l |}.

End Np.

Module Gates.

Import Np.

(** Arrays are objects: a name or a node holds a reference to one. *)
Definition loc : Set := nat.

(** [tn.Node(tensor, name=n)] *)
Record Node : Set := MkNode {
  tensor : loc;
  name : option string
}.

Inductive value : Set :=
  | VArray (l : loc)
  | VPartial (m : loc) (n : string)   (* [partial(template, m, n)] *)
  | VOther.

Definition _h_matrix : ndarray :=
  scale (Real (1 / sqrt 2)) (matrix [[1.0; 1.0]; [1.0; -1.0]]%float).
Definition _i_matrix : ndarray := matrix [[1.0; 0.0]; [0.0; 1.0]]%float.
Definition _x_matrix : ndarray := matrix [[0.0; 1.0]; [1.0; 0.0]]%float.
Definition _y_matrix : ndarray :=
  {| shape := [2; 2];
     data := [Complex 0 0; neg j; j; Complex 0 0] |}.
Definition _z_matrix : ndarray := matrix [[1.0; 0.0]; [0.0; -1.0]]%float.
Definition _cnot_matrix : ndarray :=
  matrix [[1.0; 0.0; 0.0; 0.0];
          [0.0; 1.0; 0.0; 0.0];
          [0.0; 0.0; 0.0; 1.0];
          [0.0; 0.0; 1.0; 0.0]]%float.
Definition _cz_matrix : ndarray :=
  matrix [[1.0; 0.0; 0.0; 0.0];
          [0.0; 1.0; 0.0; 0.0];
          [0.0; 0.0; 1.0; 0.0];
          [0.0; 0.0; 0.0; -1.0]]%float.
Definition _swap_matrix : ndarray :=
  matrix [[1.0; 0.0; 0.0; 0.0];
          [0.0; 0.0; 1.0; 0.0];
          [0.0; 1.0; 0.0; 0.0];
          [0.0; 0.0; 0.0; 1.0]]%float.

(** [name.startswith("_")], [name.endswith("_matrix")], [name[1:-7]] *)
Definition startswith (s p : string) : bool := String.prefix p s.

Definition endswith (s p : string) : bool :=
  (String.length p <=? String.length s)%nat
  && String.eqb (String.substring (String.length s - String.length p)
                   (String.length p) s) p.

Definition slice_1_m7 (s : string) : string :=
  String.substring 1 (String.length s - 7 - 1) s.

#[global] Instance ndarray_inhabited : Inhabited ndarray := populate (vector []).

Section WithNumerics.

(** Conversion of a number to [cons.npdtype]; [np.sin], [np.cos] and
    [scipy.linalg.expm]; the global random source of numpy: the state
    a seed yields, a draw of three numbers ([np.random.rand(3)]) and
    a draw of [unitary_group.rvs(dim=4)]. *)
Variable npdtype : scalar → scalar.
Variables np_sin np_cos : float → float.
Variable expm : ndarray → ndarray.
Variable rng : Type.
Variable seed_state : Z → rng.
Variable random_rand3 : rng → (float * float * float) * rng.
Variable unitary_group_rvs : rng → ndarray * rng.

(** The module: its namespace, the arrays alive and the random source. *)
Record state : Type := State {
  ns : gmap string value;
  heap : gmap loc ndarray;
  random : rng
}.

(** A new array object. *)
Definition alloc (a : ndarray) (st : state) : loc * state :=
  let l := fresh (dom (heap st)) in
  (l, {| ns := ns st; heap := <[l := a]> (heap st); random := random st |}).

Definition setattr (n : string) (v : value) (st : state) : state :=
  {| ns := <[n := v]> (ns st); heap := heap st; random := random st |}.

(** [n = a] at the top level of the module, [a] a new array. *)
Definition assign_array (st : state) (b : string * ndarray) : state :=
  let '(l, st) := alloc b.2 st in setattr b.1 (VArray l) st.

(** [deepcopy(m)]: a new array with the elements of [m].  A reference
    held by a name or a node always points to a live array; the total
    lookup only makes the function total. *)
Definition deepcopy (l : loc) (st : state) : loc * state :=
  alloc (heap st !!! l) st.

Definition template (m : loc) (n : string) (st : state) : Node * state :=
  let '(l, st) := deepcopy m st in
  ({| tensor := l; name := Some n |}, st).

(** [dir(thismodule)]: the names bound, sorted. *)
Definition dir (st : state) : list string :=
  merge_sort (λ x y, Is_true (String.leb x y)) (map fst (map_to_list (ns st))).

(** One iteration of the loop of [meta_gate]. *)
Definition meta_gate_step (st : state) (name : string) : result state :=
  if endswith name "_matrix" && startswith name "_" then
    let n := slice_1_m7 name in
    match ns st !! name with
    | None => Raise AttributeError
    | Some (VArray l) =>
        let m := heap st !!! l in
        d <-- match head (shape m) with
              | Some d => Ok d
              | None => Raise IndexError
              end ;;
        let m := if (d =? 4)%nat then reshape m [2; 2; 2; 2] else m in
        let '(m, st) := alloc (astype m npdtype) st in
        let temp := VPartial m n in
        Ok (setattr n temp (setattr (n +:+ "gate") temp st))
    | Some _ => Raise AttributeError
    end
  else Ok st.

Definition meta_gate (st : state) : result state :=
  for_each meta_gate_step (dir st) st.

(** [np.random.seed(seed)] *)
Definition np_random_seed (seed : Z) (st : state) : result state :=
  if bool_decide (0 ≤ seed < 2 ^ 32)%Z then
    Ok {| ns := ns st; heap := heap st; random := seed_state seed |}
  else Raise ValueError.

(** The truth value of [seed]. *)
Definition truthy (seed : option Z) : bool :=
  match seed with
  | None => false
  | Some s => negb (s =? 0)%Z
  end.

(** [if seed: np.random.seed(seed)] *)
Definition seed_if_given (seed : option Z) (st : state) : result state :=
  if truthy seed then np_random_seed (default 0%Z seed) st else Ok st.

(** A global array read inside a function of the module. *)
Definition global_array (st : state) (n : string) : result ndarray :=
  match ns st !! n with
  | None => Raise NameError
  | Some (VArray l) => Ok (heap st !!! l)
  | Some _ => Raise TypeError
  end.

(** The arrays built on the way to [unitary] are dropped at once; only
    [unitary], which the node keeps, is allocated. *)
Definition rgate (seed : option Z) (angle_scale : float) (st : state)
  : result (Node * state) :=
  st <-- seed_if_given seed st ;;
  let '((r0, r1, r2), g) := random_rand3 (random st) in
  let st := {| ns := ns st; heap := heap st; random := g |} in
  let theta := (r0 * 2 * np_pi)%float in
  let alpha := (r1 * 2 * np_pi)%float in
  let phi := (r2 * 2 * np_pi)%float in
  let mx := (np_sin alpha * np_cos phi)%float in
  let my := (np_sin alpha * np_sin phi)%float in
  let mz := np_cos alpha in
  let theta := (theta * angle_scale)%float in
  x <-- global_array st "_x_matrix" ;;
  y <-- global_array st "_y_matrix" ;;
  z <-- global_array st "_z_matrix" ;;
  let unitary :=
    expm (scale (mul (neg j) (Real theta))
            (plus (scale (Real mx) x)
                  (times (scale_r (scale (Real my) y) (Real mz)) z))) in
  let '(l, st) := alloc unitary st in
  Ok ({| tensor := l; name := None |}, st).

(** [unitary_group.rvs] returns a new array; [np.reshape] returns a view
    of it, kept here as an array object of its own; the node receives a
    deep copy of the view. *)
Definition random_two_qubit_gate (seed : option Z) (st : state)
  : result (Node * state) :=
  st <-- seed_if_given seed st ;;
  let '(unitary, g) := unitary_group_rvs (random st) in
  let st := {| ns := ns st; heap := heap st; random := g |} in
  let '(u, st) := alloc unitary st in
  let '(u, st) := alloc (reshape (heap st !!! u) [2; 2; 2; 2]) st in
  let '(l, st) := deepcopy u st in
  Ok ({| tensor := l; name := Some "R2Q" |}, st).

(** A call [g()] of a name bound by [meta_gate]. *)
Definition call_gate (g : string) (st : state) : result (Node * state) :=
  match ns st !! g with
  | None => Raise AttributeError
  | Some (VPartial m n) => Ok (template m n st)
  | Some _ => Raise TypeError
  end.

(** The statements run when the module is imported, the random source
    being in the state [g]. *)
Definition load (g : rng) : result state :=
  let zero_state := astype (vector [Real 1.0; Real 0.0]) npdtype in
  let one_state := astype (vector [Real 0.0; Real 1.0]) npdtype in
  let st := {| ns := ∅; heap := ∅; random := g |} in
  let st := foldl assign_array st
    [("zero_state", zero_state);
     ("one_state", one_state);
     ("plus_state", scale (Real (1.0 / sqrt 2)) (plus zero_state one_state));
     ("minus_state", scale (Real (1.0 / sqrt 2)) (minus zero_state one_state));
     ("_h_matrix", _h_matrix);
     ("_i_matrix", _i_matrix);
     ("_x_matrix", _x_matrix);
     ("_y_matrix", _y_matrix);
     ("_z_matrix", _z_matrix);
     ("_cnot_matrix", _cnot_matrix);
     ("_cz_matrix", _cz_matrix);
     ("_swap_matrix", _swap_matrix)] in
  let st := setattr "meta_gate" VOther (setattr "template" VOther st) in
  st <-- meta_gate st ;;
  Ok (setattr "random_two_qubit_gate" VOther
        (setattr "r" VOther (setattr "rgate" VOther st))).

End WithNumerics.

Arguments State {rng} ns heap random.
Arguments ns {rng} s.
Arguments heap {rng} s.
Arguments random {rng} s.
Arguments alloc {rng} a st.
Arguments setattr {rng} n v st.
Arguments assign_array {rng} st b.
Arguments deepcopy {rng} l st.
Arguments template {rng} m n st.
Arguments dir {rng} st.
Arguments meta_gate_step npdtype {rng} st name.
Arguments meta_gate npdtype {rng} st.
Arguments np_random_seed {rng} seed_state seed st.
Arguments seed_if_given {rng} seed_state seed st.
Arguments global_array {rng} st n.
Arguments rgate np_sin np_cos expm {rng} seed_state random_rand3 seed angle_scale st.
Arguments random_two_qubit_gate {rng} seed_state unitary_group_rvs seed st.
Arguments call_gate {rng} g st.
Arguments load npdtype {rng} g.

End Gates.

(** * Specification vocabulary *)

Module Spec.

Import Circuit.

(** The basis labels of the double gates. *)
Inductive basis : Set := X | Y | Z.

Definition label (b : basis) : string :=
  match b with X => "x" | Y => "y" | Z => "z" end.

Definition label_char (b : basis) : ascii :=
  match b with X => "x" | Y => "y" | Z => "z" end.

(** Change of basis before the entangling block, and its inverse after
    it. *)
Definition basis_change (b : basis) (q : nat) : list call :=
  match b with
  | X => [Call "H" [q] None]
  | Y => [Call "rx" [q] (Some (- (np_pi / 2))%float)]
  | Z => []
  end.

Definition basis_restore (b : basis) (q : nat) : list call :=
  match b with
  | X => [Call "H" [q] None]
  | Y => [Call "rx" [q] (Some (np_pi / 2)%float)]
  | Z => []
  end.

(** The calls a double gate for [(b1, b2)] makes on a circuit. *)
Definition sandwich (b1 b2 : basis) (q1 q2 : nat) (angle : float) : list call :=
  basis_change b1 q1 ++ basis_change b2 q2
  ++ [Call "CNOT" [q1; q2] None; Call "rz" [q2] (Some angle);
      Call "CNOT" [q1; q2] None]
  ++ basis_restore b1 q1 ++ basis_restore b2 q2.

(** The applier registered for the pair [(b1, b2)]. *)
Definition double_gate_of (b1 b2 : basis) : Layers.double_gate :=
  {| Layers.d1 := label_char b1;
     Layers.d2 := label_char b2;
     Layers.gate_doc := (label b1 +:+ label b2) +:+ "gate" |}.

(** The weight of an edge, 1.0 when the edge carries none. *)
Definition edge_weight (g : Graph.t) (u v : nat) : float :=
  match Graph.adj g u v with
  | Some d => match d !! "weight" with Some w => w | None => 1.0%float end
  | None => 1.0%float
  end.

(** Every edge of the edge view is an edge of the adjacency. *)
Definition well_formed (g : Graph.t) : Prop :=
  ∀ u v, (u, v) ∈ Graph.edges g → is_Some (Graph.adj g u v).

(** The graph a two-qubit layer runs over. *)
Definition graph_of (g : option Graph.t) (circuit : Circuit.t) : Graph.t :=
  match g with
  | Some g => g
  | None => Graph.complete_graph (_nqubits circuit)
  end.

(** The layer objects created for a gate name and for a pair label. *)
Definition gate_layer (sgates : list string) (gate : string) : Layers.layer :=
  {| Layers.body := Layers.SingleQubit gate;
     Layers.__doc__ := gate +:+ "layer";
     Layers.__repr__ := gate +:+ "layer";
     Layers.__trainable__ := negb (bool_decide (gate ∈ sgates)) |}.

Definition double_gate_layer (gates : string) : Layers.layer :=
  {| Layers.body := Layers.TwoQubit gates;
     Layers.__doc__ := gates +:+ "layer";
     Layers.__repr__ := gates +:+ "layer";
     Layers.__trainable__ := true |}.

(** The canonical default layers. *)
Definition default_layers (sgates : list string) : list Layers.value :=
  [Layers.VLayer (gate_layer sgates "H");
   Layers.VLayer (gate_layer sgates "rx");
   Layers.VLayer (gate_layer sgates "rz");
   Layers.VLayer (double_gate_layer "zz")].

(** The module states a program can reach: the import of the module
    followed by calls of the setter. *)
Inductive reachable (sgates : list string) : Layers.state → Prop :=
  | reach_load st :
      Layers.load sgates = Ok st → reachable sgates st
  | reach_set_choice st l st' :
      reachable sgates st → Layers.set_choice l st = Ok st' →
      reachable sgates st'.

(** The basis change the applier makes for a character of a label,
    whatever the character is, and the change that undoes it: x and y as
    above, every other character nothing. *)
Definition letter_change (d : ascii) (q : nat) : list call :=
  if Ascii.eqb d "x" then [Call "H" [q] None]
  else if Ascii.eqb d "y" then [Call "rx" [q] (Some (- (np_pi / 2))%float)]
  else [].

Definition letter_restore (d : ascii) (q : nat) : list call :=
  if Ascii.eqb d "x" then [Call "H" [q] None]
  else if Ascii.eqb d "y" then [Call "rx" [q] (Some (np_pi / 2)%float)]
  else [].

End Spec.

Module GatesSpec.

Import Np Gates.

(** An entry of [mx·X + my·Y·mz·Z], the products being entry by entry. *)
Definition generator_entry (mx my mz : float) (x y z : scalar) : scalar :=
  add (mul (Real mx) x) (mul (mul (mul (Real my) y) (Real mz)) z).

(** The generator of the random single-qubit gate, from the entries of
    the Pauli matrices X = [[0, 1], [1, 0]], Y = [[0, -i], [i, 0]] and
    Z = [[1, 0], [0, -1]]. *)
Definition generator (mx my mz : float) : ndarray :=
  {| shape := [2; 2];
     data :=
       [generator_entry mx my mz (Real 0) (Complex 0 0) (Real 1);
        generator_entry mx my mz (Real 1) (neg j) (Real 0);
        generator_entry mx my mz (Real 1) j (Real 0);
        generator_entry mx my mz (Real 0) (Complex 0 0) (Real (-1))] |}.

(** What the generator would be with the three terms added:
    [mx·X + my·Y + mz·Z]. *)
Definition bloch_entry (mx my mz : float) (x y z : scalar) : scalar :=
  add (add (mul (Real mx) x) (mul (Real my) y)) (mul (Real mz) z).

Definition bloch_sum (mx my mz : float) : ndarray :=
  {| shape := [2; 2];
     data :=
       [bloch_entry mx my mz (Real 0) (Complex 0 0) (Real 1);
        bloch_entry mx my mz (Real 1) (neg j) (Real 0);
        bloch_entry mx my mz (Real 1) j (Real 0);
        bloch_entry mx my mz (Real 0) (Complex 0 0) (Real (-1))] |}.

(** Every array alive in [st] is alive in [st'] with the elements it
    had, and the names are bound as before. *)
Definition untouched {rng : Type} (st st' : state rng) : Prop :=
  ns st' = ns st ∧ ∀ l a, heap st !! l = Some a → heap st' !! l = Some a.

(** The fixed gates: the name of each and the tensor its nodes wrap,
    before the conversion to [npdtype]. *)
Definition gate_table : list (string * ndarray) :=
  [("h", _h_matrix); ("i", _i_matrix); ("x", _x_matrix); ("y", _y_matrix);
   ("z", _z_matrix);
   ("cnot", reshape _cnot_matrix [2; 2; 2; 2]);
   ("cz", reshape _cz_matrix [2; 2; 2; 2]);
   ("swap", reshape _swap_matrix [2; 2; 2; 2])].

(** The functions of the module that hand out nodes. *)
Inductive operation : Set :=
  | CallGate (g : string)
  | Rgate (seed : option Z) (angle_scale : float)
  | RandomTwoQubitGate (seed : option Z).

Section WithNumerics.

Variables np_sin np_cos : float → float.
Variable expm : ndarray → ndarray.
Variable rng : Type.
Variable seed_state : Z → rng.
Variable random_rand3 : rng → (float * float * float) * rng.
Variable unitary_group_rvs : rng → ndarray * rng.

Definition run (op : operation) (st : state rng) : result (Node * state rng) :=
  match op with
  | CallGate g => call_gate g st
  | Rgate seed angle_scale =>
      rgate np_sin np_cos expm seed_state random_rand3 seed angle_scale st
  | RandomTwoQubitGate seed =>
      random_two_qubit_gate seed_state unitary_group_rvs seed st
  end.

End WithNumerics.

Arguments run np_sin np_cos expm {rng} seed_state random_rand3
  unitary_group_rvs op st.

End GatesSpec.

(** * Further vocabulary *)

Module Count.

(** The number of calls a basis change costs: none for z, one for x and
    for y. *)
Definition basis_cost (b : Spec.basis) : nat :=
  match b with
  | Spec.Z => 0
  | _ => 1
  end.

(** The calls a double gate makes, whatever its two characters are. *)
Definition gate_calls (f : Layers.double_gate) (q1 q2 : nat) (angle : float)
  : list Circuit.call :=
  Circuit.applied (Layers.call_double_gate f (Circuit.Make 0 []) q1 q2 angle).

(** The circuit with the qubit count of [c] and no call yet. *)
Definition blank (c : Circuit.t) : Circuit.t :=
  Circuit.Make (Circuit._nqubits c) [].

End Count.

Module InPlace.

Import Layers.

(** The layers change the circuit they are given.  When a layer raises,
    the circuit of the caller keeps the calls made before the exception;
    [for_each_mut] gives the circuit as it is when the loop ends, and the
    exception when the loop ends by one.  An iteration of the loops of the
    layers raises only while the arguments of a call are evaluated, that
    is before the call is made. *)
Fixpoint for_each_mut {A : Type} (body : Circuit.t → A → result Circuit.t)
    (l : list A) (circuit : Circuit.t) : Circuit.t * option exn :=
  match l with
  | [] => (circuit, None)
  | x :: l' =>
      match body circuit x with
      | Ok circuit' => for_each_mut body l' circuit'
      | Raise e => (circuit, Some e)
      end
  end.

(** The functions [f] of [generate_gate_layer] and of
    [generate_double_gate_layer] once more, with the state the circuit is
    left in. *)
Definition run_layer (sgates : list string) (ns : gmap string value)
    (f : layer) (circuit : Circuit.t) (symbol : option float)
    (g : option Graph.t) : Circuit.t * option exn :=
  match body f with
  | SingleQubit gate =>
      if bool_decide (lower gate ∈ sgates) then
        for_each_mut (λ circuit n, Ok (Circuit.apply circuit gate [n] None))
          (seq 0 (Circuit._nqubits circuit)) circuit
      else
        for_each_mut (λ circuit n,
            th <-- twice symbol ;;
            Ok (Circuit.apply circuit gate [n] (Some th)))
          (seq 0 (Circuit._nqubits circuit)) circuit
  | TwoQubit gates =>
      let g := match g with
               | None => Graph.complete_graph (Circuit._nqubits circuit)
               | Some g => g
               end in
      for_each_mut (double_layer_step ns gates symbol g) (Graph.edges g) circuit
  end.

(** What the caller gets: the circuit, or the exception. *)
Definition outcome (r : Circuit.t * option exn) : result Circuit.t :=
  match r.2 with
  | None => Ok r.1
  | Some e => Raise e
  end.

End InPlace.

Module Session.

Import Np Gates GatesSpec.

Section WithNumerics.

Variables np_sin np_cos : float → float.
Variable expm : ndarray → ndarray.
Variable rng : Type.
Variable seed_state : Z → rng.
Variable random_rand3 : rng → (float * float * float) * rng.
Variable unitary_group_rvs : rng → ndarray * rng.

(** A program that asks the module for nodes, one after the other: the
    nodes it gets, in order, and the final state of the module. *)
Fixpoint run_all (ops : list operation) (st : state rng)
  : result (list Node * state rng) :=
  match ops with
  | [] => Ok ([], st)
  | op :: ops =>
      r <-- run np_sin np_cos expm seed_state random_rand3 unitary_group_rvs op st ;;
      rs <-- run_all ops r.2 ;;
      Ok (r.1 :: rs.1, rs.2)
  end.

End WithNumerics.

Arguments run_all np_sin np_cos expm {rng} seed_state random_rand3
  unitary_group_rvs ops st.

End Session.

(** * Sample inputs *)

Module Examples.

(** A path 0 - 1 - 2 whose first edge has the weight 3.0 and whose
    second edge has no weight. *)
Definition path_graph : Graph.t :=
  {| Graph.edges := [(0, 1); (1, 2)];
     Graph.adj := λ u v,
       if bool_decide ((u = 0 ∧ v = 1) ∨ (u = 1 ∧ v = 0)) then
         Some {[ "weight" := 3.0%float ]}
       else if bool_decide ((u = 1 ∧ v = 2) ∨ (u = 2 ∧ v = 1)) then Some ∅
       else None |}.

(** Stand-ins for the numeric libraries, to run the gate table on: the
    conversion to [complex128], a counter as random source whose draws
    are fixed numbers, and identity functions for [np.sin], [np.cos]
    and [expm]. *)
Definition complex128 (s : Np.scalar) : Np.scalar :=
  Np.Complex (Np.parts s).1 (Np.parts s).2.

Definition seed_state (seed : Z) : nat := Z.to_nat seed.

Definition random_rand3 (g : nat) : (float * float * float) * nat :=
  ((0.5, 0.25, 0.125)%float, S g).

Definition unitary_group_rvs (g : nat) : Np.ndarray * nat :=
  (Gates._swap_matrix, S g).

Definition identity (x : float) : float := x.

Definition no_expm (a : Np.ndarray) : Np.ndarray := a.

End Examples.

(** * Properties of the layer generators *)

Section Loops.

Context {A S : Type}.

Lemma for_each_app (body : S → A → result S) (l1 l2 : list A) (s : S) :
  for_each body (l1 ++ l2) s = (s' <-- for_each body l1 s ;; for_each body l2 s').
Proof.
  revert s; induction l1 as [|x l1 IH]; intros s; simpl; [done|].
  destruct (body s x); simpl; auto.
Qed.

Lemma for_each_total (step : S → A → S) (l : list A) (s : S) :
  for_each (λ s x, Ok (step s x)) l s = Ok (foldl step s l).
Proof. revert s; induction l as [|x l IH]; intros s; simpl; auto. Qed.

Lemma for_each_ext (body1 body2 : S → A → result S) (l : list A) (s : S) :
  (∀ s x, x ∈ l → body1 s x = body2 s x) →
  for_each body1 l s = for_each body2 l s.
Proof.
  revert s; induction l as [|x l IH]; intros s Hb; simpl; [done|].
  rewrite Hb by left. destruct (body2 s x); simpl; [|done].
  apply IH. intros; apply Hb; by right.
Qed.

End Loops.

Section CircuitFacts.

Import Circuit.

Lemma extend_nil c : extend c [] = c.
Proof. destruct c; unfold extend; simpl. by rewrite app_nil_r. Qed.

Lemma extend_extend c cs1 cs2 : extend (extend c cs1) cs2 = extend c (cs1 ++ cs2).
Proof. unfold extend; simpl. by rewrite app_assoc. Qed.

Lemma apply_extend c m qs th : apply c m qs th = extend c [Call m qs th].
Proof. done. Qed.

Lemma foldl_extend {B : Type} (f : B → list call) (l : list B) (c : t) :
  foldl (λ c x, extend c (f x)) c l = extend c (concat (map f l)).
Proof.
  revert c; induction l as [|x l IH]; intros c; simpl.
  - by rewrite extend_nil.
  - by rewrite IH, extend_extend.
Qed.

End CircuitFacts.

Module LayersFacts.

Import Circuit Layers Spec.

Lemma call_double_gate_sandwich b1 b2 doc c q1 q2 angle :
  call_double_gate {| d1 := label_char b1; d2 := label_char b2; gate_doc := doc |}
    c q1 q2 angle
  = extend c (sandwich b1 b2 q1 q2 angle).
Proof.
  unfold call_double_gate, H, CNOT, rx, rz.
  destruct b1, b2; simpl; rewrite !apply_extend, !extend_extend; reflexivity.
Qed.

Lemma layers_load_ok sgates : ∃ st, load sgates = Ok st.
Proof. eexists. vm_compute. reflexivity. Qed.

Lemma load_gate sgates st b1 b2 :
  load sgates = Ok st →
  ns st !! ((label b1 +:+ label b2) +:+ "gate") = Some (VGate (double_gate_of b1 b2)).
Proof.
  intros Hl. vm_compute in Hl. injection Hl as <-.
  destruct b1, b2; vm_compute; reflexivity.
Qed.

(** C1: for every ordered pair of basis labels, the double gate generated
    for it (by any call of [generate_double_gate], and so the one bound
    when the module is imported) changes the basis on the first qubit,
    then on the second (Hadamard for x, rx(-pi/2) for y, nothing for z),
    applies CNOT, rz by the given angle on the second qubit, CNOT again,
    then undoes the basis change on the first qubit and on the second
    (Hadamard for x, rx(+pi/2) for y), and returns the circuit it was
    given, extended by exactly these calls. *)
Theorem double_gate_sequence (sgates : list string) (b1 b2 : basis) :
  let gates := label b1 +:+ label b2 in
  let f := double_gate_of b1 b2 in
  (∀ ns, generate_double_gate gates ns = Ok (<[gates +:+ "gate" := VGate f]> ns))
  ∧ (∃ st, load sgates = Ok st ∧ ns st !! (gates +:+ "gate") = Some (VGate f))
  ∧ ∀ circuit q1 q2 angle,
      call_double_gate f circuit q1 q2 angle
      = extend circuit (sandwich b1 b2 q1 q2 angle).
Proof.
  intros gates f. split; [|split].
  - intros ns0. subst gates f. destruct b1, b2; reflexivity.
  - destruct (layers_load_ok sgates) as [st Hst]. exists st. split; [done|].
    by apply (load_gate sgates).
  - intros. apply call_double_gate_sandwich.
Qed.

Lemma combinations2_bounds s n u v :
  (u, v) ∈ Graph.combinations2 (seq s n) → s ≤ u ∧ u < v ∧ v < s + n.
Proof.
  revert s; induction n as [|n IH]; intros s; simpl.
  - intros Hin. by apply elem_of_nil in Hin.
  - rewrite elem_of_app. intros [Hin|Hin].
    + apply list_elem_of_fmap in Hin as (w & Heq & Hw).
      injection Heq as -> ->. apply elem_of_seq in Hw. lia.
    + apply IH in Hin. lia.
Qed.

Lemma complete_graph_adj n u v :
  (u, v) ∈ Graph.edges (Graph.complete_graph n) →
  Graph.adj (Graph.complete_graph n) u v = Some ∅.
Proof.
  simpl. intros Hin%combinations2_bounds.
  rewrite bool_decide_eq_true_2; [done|lia].
Qed.

Lemma complete_graph_well_formed n : well_formed (Graph.complete_graph n).
Proof. intros u v Hin. rewrite (complete_graph_adj _ _ _ Hin). by eexists. Qed.

Lemma complete_graph_weight n u v :
  (u, v) ∈ Graph.edges (Graph.complete_graph n) →
  edge_weight (Graph.complete_graph n) u v = 1.0%float.
Proof. intros Hin. unfold edge_weight. by rewrite (complete_graph_adj _ _ _ Hin). Qed.

Lemma graph_of_well_formed g circuit :
  (∀ g', g = Some g' → well_formed g') → well_formed (graph_of g circuit).
Proof.
  destruct g as [g'|]; simpl; intros Hg; [by apply Hg|].
  apply complete_graph_well_formed.
Qed.

(** One iteration of a two-qubit layer over an edge of the graph is one
    call of the double gate bound to the label. *)
Lemma double_layer_step_edge ns gates f symbol g circuit u v :
  ns !! (gates +:+ "gate") = Some (VGate f) →
  is_Some (Graph.adj g u v) →
  double_layer_step ns gates (Some symbol) g circuit (u, v)
  = Ok (call_double_gate f circuit u v (- symbol * edge_weight g u v * 2)%float).
Proof.
  intros Hf [d Hd]. unfold double_layer_step, getattr, Graph.getitem, edge_weight.
  rewrite Hf; simpl. rewrite Hd; simpl. unfold Graph.get_weight.
  by destruct (d !! "weight").
Qed.

Lemma double_layer_loop ns gates f symbol g circuit :
  ns !! (gates +:+ "gate") = Some (VGate f) →
  well_formed g →
  for_each (double_layer_step ns gates (Some symbol) g) (Graph.edges g) circuit
  = Ok (foldl (λ c e, call_double_gate f c e.1 e.2
                        (- symbol * edge_weight g e.1 e.2 * 2)%float)
          circuit (Graph.edges g)).
Proof.
  intros Hf Hg. rewrite <- for_each_total. apply for_each_ext.
  intros c [u v] Hin. apply double_layer_step_edge; auto.
Qed.

Lemma load_double_layer sgates st b1 b2 :
  load sgates = Ok st →
  ns st !! ((label b1 +:+ label b2) +:+ "layer")
  = Some (VLayer (double_gate_layer (label b1 +:+ label b2))).
Proof.
  intros Hl. vm_compute in Hl. injection Hl as <-.
  destruct b1, b2; vm_compute; reflexivity.
Qed.

Lemma foldl_ext_in {B C : Type} (f1 f2 : C → B → C) (l : list B) (c : C) :
  (∀ c x, x ∈ l → f1 c x = f2 c x) → foldl f1 c l = foldl f2 c l.
Proof.
  revert c; induction l as [|x l IH]; intros c Hf; simpl; [done|].
  rewrite Hf by left. apply IH. intros; apply Hf; by right.
Qed.

(** C2: the two-qubit layer bound for a pair label when the module is
    imported calls the double gate of that label once for each edge
    [(u, v)] of the graph, in the order of the edge view, with the angle
    [-symbol * weight(u, v) * 2], the weight being 1.0 when the edge has
    no weight attribute; without a graph it runs over the complete graph
    on the qubits of the circuit; over a graph without edges it returns
    the circuit as it was; over three qubits, without a graph and with
    symbol 1.0, it makes three calls, on (0,1), (0,2) and (1,2), each
    with the angle -2.0. *)
Theorem double_layer_per_edge (sgates : list string) (st : state)
    (b1 b2 : basis) (circuit : Circuit.t) (symbol : float)
    (g : option Graph.t) :
  load sgates = Ok st →
  (∀ g', g = Some g' → well_formed g') →
  let gates := label b1 +:+ label b2 in
  let f := double_gate_of b1 b2 in
  let g' := graph_of g circuit in
  let angle e := (- symbol * edge_weight g' e.1 e.2 * 2)%float in
  let run := call_layer sgates (ns st) (double_gate_layer gates) circuit
               (Some symbol) g in
  ns st !! (gates +:+ "layer") = Some (VLayer (double_gate_layer gates))
  ∧ run = Ok (foldl (λ c e, call_double_gate f c e.1 e.2 (angle e))
                circuit (Graph.edges g'))
  ∧ run = Ok (extend circuit
                (concat (map (λ e, sandwich b1 b2 e.1 e.2 (angle e))
                           (Graph.edges g'))))
  ∧ (g = None → ∀ e, e ∈ Graph.edges g' → angle e = (- symbol * 1.0 * 2)%float)
  ∧ (Graph.edges g' = [] → run = Ok circuit)
  ∧ (g = None → _nqubits circuit = 3 → symbol = 1.0%float →
     run = Ok (foldl (λ c e, call_double_gate f c e.1 e.2 (-2.0)%float)
                 circuit [(0, 1); (0, 2); (1, 2)])).
Proof.
  intros Hl Hg gates f g' angle run.
  assert (Hrun : run = Ok (foldl (λ c e, call_double_gate f c e.1 e.2 (angle e))
                             circuit (Graph.edges g'))).
  { subst run. unfold call_layer; simpl. fold (graph_of g circuit). fold g'.
    apply double_layer_loop.
    - by apply (load_gate sgates).
    - by apply graph_of_well_formed. }
  assert (Hw : g = None → ∀ e, e ∈ Graph.edges g' →
               angle e = (- symbol * 1.0 * 2)%float).
  { intros -> [u v] Hin. subst angle g'; simpl in *.
    by rewrite complete_graph_weight. }
  split; [by apply (load_double_layer sgates)|]. split; [done|].
  split; [|split; [done|split]].
  - rewrite Hrun. f_equal. rewrite <- foldl_extend. apply foldl_ext_in.
    intros c e _. apply call_double_gate_sandwich.
  - intros He. rewrite Hrun, He. done.
  - intros Hnone Hn ->. rewrite Hrun. f_equal.
    assert (He : Graph.edges g' = [(0, 1); (0, 2); (1, 2)]).
    { subst g' g; simpl; rewrite Hn; reflexivity. }
    rewrite <- He. apply foldl_ext_in. intros c e Hin.
    f_equal. by rewrite (Hw Hnone e Hin).
Qed.

Lemma double_layer_per_edge_witness :
  ∃ st, load ["h"] = Ok st
    ∧ call_layer ["h"] (ns st) (double_gate_layer "zz") (Circuit.Make 3 [])
        (Some 0.5%float) (Some Examples.path_graph)
      = Ok (Circuit.Make 3
              [Call "CNOT" [0; 1] None; Call "rz" [1] (Some (-3.0)%float);
               Call "CNOT" [0; 1] None;
               Call "CNOT" [1; 2] None; Call "rz" [2] (Some (-1.0)%float);
               Call "CNOT" [1; 2] None]).
Proof.
  destruct (layers_load_ok ["h"]) as [st Hst]. exists st. split; [exact Hst|].
  assert (Hwf : ∀ g', Some Examples.path_graph = Some g' → well_formed g').
  { intros g' [= <-] u v Hin. vm_compute in Hin.
    apply elem_of_cons in Hin as [[= -> ->]|Hin]; [by eexists|].
    apply elem_of_cons in Hin as [[= -> ->]|Hin]; [by eexists|].
    by apply elem_of_nil in Hin. }
  destruct (double_layer_per_edge ["h"] st Z Z (Circuit.Make 3 [])
              0.5%float (Some Examples.path_graph) Hst Hwf)
    as (_ & _ & Hrun & _).
  refine (eq_trans Hrun _). vm_compute. reflexivity.
Defined.

(** A single-qubit layer makes one call per qubit index. *)
Lemma single_layer_loop (circuit : Circuit.t) (gate : string) (th : option float) (l : list nat) :
  for_each (λ c n, Ok (apply c gate [n] th)) l circuit
  = Ok (extend circuit (map (λ q, Call gate [q] th) l)).
Proof.
  rewrite for_each_total. f_equal.
  rewrite (foldl_ext_in _ (λ c x, extend c ((λ q, [Call gate [q] th]) x)))
    by (intros; apply apply_extend).
  rewrite foldl_extend. f_equal.
  induction l as [|x l IH]; simpl; [done|]. by rewrite IH.
Qed.

Lemma call_fixed_layer sgates ns gate flag doc repr circuit symbol g :
  lower gate ∈ sgates →
  call_layer sgates ns (Layer (SingleQubit gate) doc repr flag) circuit symbol g
  = Ok (extend circuit
          (map (λ q, Call gate [q] None) (seq 0 (_nqubits circuit)))).
Proof.
  intros Hin. unfold call_layer; simpl.
  rewrite bool_decide_eq_true_2 by done. apply single_layer_loop.
Qed.

Lemma call_rotation_layer sgates ns gate flag doc repr circuit s g :
  lower gate ∉ sgates →
  call_layer sgates ns (Layer (SingleQubit gate) doc repr flag) circuit (Some s) g
  = Ok (extend circuit
          (map (λ q, Call gate [q] (Some (2 * s)%float))
             (seq 0 (_nqubits circuit)))).
Proof.
  intros Hin. unfold call_layer; simpl.
  rewrite bool_decide_eq_false_2 by done. apply single_layer_loop.
Qed.

Lemma generate_gate_layer_eq sgates gate ns :
  generate_gate_layer sgates gate ns
  = <[gate +:+ "layer" := VLayer (gate_layer sgates gate)]> ns.
Proof.
  unfold generate_gate_layer, gate_layer.
  by destruct (bool_decide (gate ∈ sgates)).
Qed.

(** C5: the layer generated for a gate name applies the gate once to
    every qubit index 0..nqubits-1 and returns the circuit it was given:
    without a rotation parameter when the lower-cased name is one of the
    fixed gates, with the rotation angle [2 * symbol] otherwise; the "H"
    layer on a circuit of three qubits makes exactly the three calls
    H(0), H(1), H(2). *)
Theorem single_layer_applies (sgates : list string) (ns : gmap string value)
    (gate : string) (circuit : Circuit.t) (symbol : option float)
    (g : option Graph.t) :
  let layer := gate_layer sgates gate in
  let run := call_layer sgates ns layer circuit symbol g in
  (∀ ns0, generate_gate_layer sgates gate ns0
          = <[gate +:+ "layer" := VLayer layer]> ns0)
  ∧ (lower gate ∈ sgates →
     run = Ok (extend circuit
                 (map (λ q, Call gate [q] None) (seq 0 (_nqubits circuit)))))
  ∧ (lower gate ∉ sgates → ∀ s, symbol = Some s →
     run = Ok (extend circuit
                 (map (λ q, Call gate [q] (Some (2 * s)%float))
                    (seq 0 (_nqubits circuit)))))
  ∧ ("h" ∈ sgates → gate = "H" → _nqubits circuit = 3 →
     run = Ok (extend circuit
                 [Call "H" [0] None; Call "H" [1] None; Call "H" [2] None])).
Proof.
  intros layer run. split; [|split; [|split]].
  - intros ns0. apply generate_gate_layer_eq.
  - intros Hin. by apply call_fixed_layer.
  - intros Hin s ->. by apply call_rotation_layer.
  - intros Hin -> Hn. subst run layer. unfold gate_layer.
    rewrite call_fixed_layer by done. by rewrite Hn.
Qed.

Lemma single_layer_applies_witness :
  call_layer ["h"] ∅ (gate_layer ["h"] "H") (Circuit.Make 3 []) None None
  = Ok (Circuit.Make 3
          [Call "H" [0] None; Call "H" [1] None; Call "H" [2] None]).
Proof.
  destruct (single_layer_applies ["h"] ∅ "H" (Circuit.Make 3 []) None None)
    as (_ & _ & _ & Hh).
  rewrite Hh; [reflexivity| |reflexivity|reflexivity].
  apply list_elem_of_singleton. reflexivity.
Defined.

Lemma load_gate_layers sgates st :
  load sgates = Ok st →
  ns st !! "Hlayer" = Some (VLayer (gate_layer sgates "H"))
  ∧ ns st !! "rxlayer" = Some (VLayer (gate_layer sgates "rx"))
  ∧ ns st !! "rylayer" = Some (VLayer (gate_layer sgates "ry"))
  ∧ ns st !! "rzlayer" = Some (VLayer (gate_layer sgates "rz"))
  ∧ ns st !! "zzlayer" = Some (VLayer (double_gate_layer "zz")).
Proof.
  intros Hl. vm_compute in Hl. injection Hl as <-.
  repeat split; vm_compute; reflexivity.
Qed.

(** The flag follows the name as it is written, the application follows
    the lower-cased name. *)
Lemma trainable_flag sgates gate :
  __trainable__ (gate_layer sgates gate) = false ↔ gate ∈ sgates.
Proof.
  unfold gate_layer; simpl. rewrite negb_false_iff. apply bool_decide_eq_true.
Qed.

(** C6: with the fixed gates named in lower case (["h"] listed, ["H"]
    not), the layer bound to [Hlayer] applies H to every qubit without a
    rotation parameter and yet carries the flag trainable: the flag is
    computed from the name as written, the application from the
    lower-cased name. *)
Theorem Hlayer_flag (sgates : list string) (st : state) :
  load sgates = Ok st → "h" ∈ sgates → "H" ∉ sgates →
  ∃ layer,
    ns st !! "Hlayer" = Some (VLayer layer)
    ∧ __trainable__ layer = true
    ∧ ∀ circuit symbol g,
        call_layer sgates (ns st) layer circuit symbol g
        = Ok (extend circuit
                (map (λ q, Call "H" [q] None) (seq 0 (_nqubits circuit)))).
Proof.
  intros Hl Hh HH. exists (gate_layer sgates "H").
  split; [by apply load_gate_layers|]. split.
  - destruct (__trainable__ (gate_layer sgates "H")) eqn:E; [done|].
    by apply trainable_flag in E.
  - intros. by apply call_fixed_layer.
Qed.

Lemma Hlayer_flag_witness :
  ∃ st layer,
    load ["i"; "x"; "y"; "z"; "h"] = Ok st
    ∧ ns st !! "Hlayer" = Some (VLayer layer)
    ∧ __trainable__ layer = true
    ∧ call_layer ["i"; "x"; "y"; "z"; "h"] (ns st) layer (Circuit.Make 2 []) None None
      = Ok (Circuit.Make 2 [Call "H" [0] None; Call "H" [1] None]).
Proof.
  destruct (layers_load_ok ["i"; "x"; "y"; "z"; "h"]) as [st Hst].
  destruct (Hlayer_flag ["i"; "x"; "y"; "z"; "h"] st Hst) as (layer & Hb & Ht & Hc).
  - apply (bool_decide_eq_true_1 _). vm_compute. reflexivity.
  - intros Hin. apply (bool_decide_eq_true_2 _) in Hin. vm_compute in Hin.
    discriminate.
  - exists st, layer. repeat split; [exact Hst|exact Hb|exact Ht|].
    rewrite Hc. reflexivity.
Defined.

Lemma set_choice_ns l st st' : set_choice l st = Ok st' → ns st' = ns st.
Proof.
  unfold set_choice, global. destruct (falsy l).
  - destruct (ns st !! "Hlayer"); simpl; [|done].
    destruct (ns st !! "rxlayer"); simpl; [|done].
    destruct (ns st !! "rzlayer"); simpl; [|done].
    destruct (ns st !! "zzlayer"); simpl; [|done].
    by intros [= <-].
  - by intros [= <-].
Qed.

Lemma reachable_ns sgates st :
  reachable sgates st →
  ns st !! "Hlayer" = Some (VLayer (gate_layer sgates "H"))
  ∧ ns st !! "rxlayer" = Some (VLayer (gate_layer sgates "rx"))
  ∧ ns st !! "rzlayer" = Some (VLayer (gate_layer sgates "rz"))
  ∧ ns st !! "zzlayer" = Some (VLayer (double_gate_layer "zz")).
Proof.
  induction 1 as [st Hl|st l st' _ IH Hs].
  - apply load_gate_layers in Hl. tauto.
  - by rewrite (set_choice_ns _ _ _ Hs).
Qed.

Lemma set_choice_default sgates st :
  reachable sgates st →
  set_choice None st = Ok {| ns := ns st; _cset := default_layers sgates |}.
Proof.
  intros (Hh & Hrx & Hrz & Hzz)%reachable_ns.
  unfold set_choice, global; simpl. by rewrite Hh, Hrx, Hrz, Hzz.
Qed.

Lemma set_choice_empty st : set_choice (Some []) st = set_choice None st.
Proof. reflexivity. Qed.

Lemma set_choice_nonempty (l : list value) st :
  l ≠ [] → set_choice (Some l) st = Ok {| ns := ns st; _cset := l |}.
Proof. destruct l; [done|]. reflexivity. Qed.

(** C7: in the imported module, after any calls of the setter, the
    setter called without argument installs exactly four layers, the
    Hadamard, X-rotation, Z-rotation and ZZ layers in this order, and
    after any call of the setter the getter returns the list that call
    installed. *)
Theorem set_choice_resets (sgates : list string) (st : state) :
  reachable sgates st →
  (∃ st', set_choice None st = Ok st'
          ∧ get_choice st' = default_layers sgates
          ∧ length (get_choice st') = 4)
  ∧ (∀ l, ∃ st', set_choice l st = Ok st'
          ∧ reachable sgates st'
          ∧ get_choice st' = _cset st'
          ∧ _cset st' = if falsy l then default_layers sgates else default [] l).
Proof.
  intros Hr. split.
  - eexists. split; [by apply set_choice_default|]. done.
  - intros l.
    assert (Hs : set_choice l st
                 = Ok {| ns := ns st;
                         _cset := if falsy l then default_layers sgates
                                  else default [] l |}).
    { destruct l as [[|v l]|]; [| reflexivity |].
      - rewrite set_choice_empty. by apply set_choice_default.
      - by apply set_choice_default. }
    eexists. split; [exact Hs|]. split; [|done].
    by apply (reach_set_choice sgates st l).
Qed.

Lemma set_choice_resets_witness :
  ∃ st st', load ["h"] = Ok st
    ∧ set_choice None st = Ok st'
    ∧ get_choice st' = default_layers ["h"].
Proof.
  destruct (layers_load_ok ["h"]) as [st Hst].
  destruct (set_choice_resets ["h"] st (reach_load ["h"] st Hst))
    as [(st' & Hs & Hg & _) _].
  exists st, st'. repeat split; assumption.
Defined.

(** An empty list is not installed: the setter treats it as no list. *)
Lemma set_choice_empty_list_defaults :
  ∃ st st', load ["h"] = Ok st
    ∧ set_choice (Some []) st = Ok st'
    ∧ get_choice st' = default_layers ["h"]
    ∧ get_choice st' ≠ [].
Proof.
  destruct (layers_load_ok ["h"]) as [st Hst].
  exists st, {| ns := ns st; _cset := default_layers ["h"] |}.
  split; [exact Hst|]. split.
  - rewrite set_choice_empty. apply set_choice_default. by apply reach_load.
  - split; [reflexivity|discriminate].
Qed.

(** C8, amended: for every non-empty list, in any state of the module,
    the setter installs exactly that list, whatever its elements are,
    and the getter then returns it; an empty list has the effect of a
    call without argument. *)
Theorem set_choice_verbatim (l : list value) (st : state) :
  l ≠ [] →
  (∃ st', set_choice (Some l) st = Ok st'
          ∧ get_choice st' = l ∧ ns st' = ns st)
  ∧ set_choice (Some []) st = set_choice None st.
Proof.
  intros Hl. split; [|apply set_choice_empty].
  eexists. split; [by apply set_choice_nonempty|]. done.
Qed.

Lemma set_choice_verbatim_witness :
  ∃ st', set_choice (Some [VGate (double_gate_of X Y)]) (State ∅ []) = Ok st'
         ∧ get_choice st' = [VGate (double_gate_of X Y)].
Proof.
  destruct (set_choice_verbatim [VGate (double_gate_of X Y)] (State ∅ []))
    as [(st' & Hs & Hg & _) _]; [discriminate|].
  exists st'. split; assumption.
Defined.

(** A label outside x, y, z is accepted: the applier built for "ab"
    makes no basis change at all. *)
Lemma unsupported_label_accepted :
  ¬ raises (generate_double_gate "ab" ∅)
  ∧ ∃ f, generate_double_gate "ab" ∅ = Ok {[ "abgate" := VGate f ]}
         ∧ ∀ circuit q1 q2 angle,
             call_double_gate f circuit q1 q2 angle
             = extend circuit
                 [Call "CNOT" [q1; q2] None; Call "rz" [q2] (Some angle);
                  Call "CNOT" [q1; q2] None].
Proof.
  split; [by intros []|].
  eexists. split; [reflexivity|].
  intros. unfold call_double_gate, CNOT, rz; simpl.
  by rewrite !apply_extend, !extend_extend.
Qed.

Lemma call_double_gate_letters (c1 c2 : ascii) (doc : string) circuit q1 q2 angle :
  call_double_gate {| d1 := c1; d2 := c2; gate_doc := doc |} circuit q1 q2 angle
  = extend circuit
      (letter_change c1 q1 ++ letter_change c2 q2
       ++ [Call "CNOT" [q1; q2] None; Call "rz" [q2] (Some angle);
           Call "CNOT" [q1; q2] None]
       ++ letter_restore c1 q1 ++ letter_restore c2 q2).
Proof.
  unfold call_double_gate, letter_change, letter_restore, H, CNOT, rx, rz; simpl.
  destruct (Ascii.eqb c1 "x"), (Ascii.eqb c1 "y"),
    (Ascii.eqb c2 "x"), (Ascii.eqb c2 "y");
    rewrite !apply_extend, !extend_extend; reflexivity.
Qed.

Lemma letter_unknown (d : ascii) (q : nat) :
  d ≠ "x"%char → d ≠ "y"%char →
  letter_change d q = [] ∧ letter_restore d q = [].
Proof.
  intros Hx%Ascii.eqb_neq Hy%Ascii.eqb_neq.
  unfold letter_change, letter_restore. by rewrite Hx, Hy.
Qed.

(** C10, amended: building a double gate checks no label.  For every
    string of two characters or more, whatever the characters are, it
    succeeds and binds an applier under the name of the string followed
    by "gate".  The applier changes the basis for each of the two
    characters on its own qubit: Hadamard for x, rx for y, and nothing for
    any other character, so a label such as "xa" gives H, CNOT, rz, CNOT,
    H and a label of two such characters gives CNOT, rz, CNOT and nothing
    else.  Only a string of fewer than two characters fails, with an
    index error. *)
Theorem generate_double_gate_unchecked (c1 c2 : ascii) (rest : string)
    (ns : gmap string value) :
  let gates := String c1 (String c2 rest) in
  let f := {| d1 := c1; d2 := c2; gate_doc := gates +:+ "gate" |} in
  generate_double_gate gates ns = Ok (<[gates +:+ "gate" := VGate f]> ns)
  ∧ (∀ circuit q1 q2 angle,
       call_double_gate f circuit q1 q2 angle
       = extend circuit
           (letter_change c1 q1 ++ letter_change c2 q2
            ++ [Call "CNOT" [q1; q2] None; Call "rz" [q2] (Some angle);
                Call "CNOT" [q1; q2] None]
            ++ letter_restore c1 q1 ++ letter_restore c2 q2))
  ∧ (∀ (d : ascii) (q : nat), d ≠ "x"%char → d ≠ "y"%char →
       letter_change d q = [] ∧ letter_restore d q = [])
  ∧ (c1 ≠ "x"%char → c1 ≠ "y"%char → c2 ≠ "x"%char → c2 ≠ "y"%char →
     ∀ circuit q1 q2 angle,
       call_double_gate f circuit q1 q2 angle
       = extend circuit
           [Call "CNOT" [q1; q2] None; Call "rz" [q2] (Some angle);
            Call "CNOT" [q1; q2] None])
  ∧ generate_double_gate "" ns = Raise IndexError
  ∧ generate_double_gate (String c1 "") ns = Raise IndexError.
Proof.
  intros gates f. split; [reflexivity|].
  split; [intros; apply call_double_gate_letters|].
  split; [apply letter_unknown|]. split; [|done].
  intros H1x H1y H2x H2y circuit q1 q2 angle.
  subst f. rewrite call_double_gate_letters.
  destruct (letter_unknown c1 q1 H1x H1y) as [-> ->].
  destruct (letter_unknown c2 q2 H2x H2y) as [-> ->]. reflexivity.
Qed.

Lemma generate_double_gate_unchecked_witness :
  generate_double_gate "xa" ∅
  = Ok {[ "xagate" := VGate {| d1 := "x"; d2 := "a"; gate_doc := "xagate" |} ]}
  ∧ call_double_gate {| d1 := "x"; d2 := "a"; gate_doc := "xagate" |}
      (Circuit.Make 2 []) 0 1 0.5%float
    = Circuit.Make 2
        [Call "H" [0] None; Call "CNOT" [0; 1] None;
         Call "rz" [1] (Some 0.5%float); Call "CNOT" [0; 1] None;
         Call "H" [0] None]
  ∧ call_double_gate {| d1 := "a"; d2 := "b"; gate_doc := "abgate" |}
      (Circuit.Make 2 []) 0 1 0.5%float
    = Circuit.Make 2
        [Call "CNOT" [0; 1] None; Call "rz" [1] (Some 0.5%float);
         Call "CNOT" [0; 1] None].
Proof.
  destruct (generate_double_gate_unchecked "x" "a" "" ∅) as (Hg & Hcall & _).
  destruct (generate_double_gate_unchecked "a" "b" "" ∅) as (_ & _ & _ & Hab & _).
  split; [exact Hg|]. split.
  - rewrite Hcall. reflexivity.
  - rewrite Hab by discriminate. reflexivity.
Defined.

End LayersFacts.

(** * Properties of the gate table *)

Module GatesFacts.

Import Np Gates GatesSpec.

Section Heap.

Context {rng : Type}.
Implicit Types st : state rng.

Lemma untouched_refl st : untouched st st.
Proof. by split. Qed.

Lemma untouched_trans st1 st2 st3 :
  untouched st1 st2 → untouched st2 st3 → untouched st1 st3.
Proof.
  intros [Hn1 Hh1] [Hn2 Hh2]. split; [congruence|]. auto.
Qed.

Lemma alloc_spec a st :
  let l := (alloc a st).1 in
  let st' := (alloc a st).2 in
  (l ∉ dom (heap st)) ∧ heap st' = (<[l := a]> (heap st))
  ∧ ns st' = ns st ∧ random st' = random st.
Proof. simpl. split; [apply is_fresh|done]. Qed.

Lemma alloc_untouched a st : untouched st (alloc a st).2.
Proof.
  destruct (alloc_spec a st) as (Hf & Hh & Hn & _).
  split; [done|]. intros l b Hl. rewrite Hh.
  rewrite lookup_insert_ne; [done|].
  intros <-. apply Hf. apply elem_of_dom. by eexists.
Qed.

Lemma alloc_lookup a st : heap (alloc a st).2 !! (alloc a st).1 = Some a.
Proof. simpl. apply lookup_insert_eq. Qed.

Lemma setattr_heap n v st : heap (setattr n v st) = heap st.
Proof. done. Qed.

Lemma template_spec m n a st :
  heap st !! m = Some a →
  let node := (template m n st).1 in
  let st' := (template m n st).2 in
  name node = Some n
  ∧ (tensor node ∉ dom (heap st))
  ∧ tensor node ≠ m
  ∧ heap st' = (<[tensor node := a]> (heap st))
  ∧ untouched st st'.
Proof.
  intros Hm. unfold template, deepcopy.
  rewrite (lookup_total_correct _ _ _ Hm).
  destruct (alloc_spec a st) as (Hf & Hh & _).
  pose proof (alloc_untouched a st) as Hu.
  destruct (alloc a st) as [l st'] eqn:E; simpl in *.
  repeat split; try done; try apply Hu.
  intros ->. apply Hf. apply elem_of_dom. by eexists.
Qed.

Lemma call_gate_spec g m n a st :
  ns st !! g = Some (VPartial m n) → heap st !! m = Some a →
  ∃ node st',
    call_gate g st = Ok (node, st')
    ∧ name node = Some n
    ∧ (tensor node ∉ dom (heap st))
    ∧ tensor node ≠ m
    ∧ heap st' = (<[tensor node := a]> (heap st))
    ∧ untouched st st'.
Proof.
  intros Hg Hm. unfold call_gate. rewrite Hg.
  destruct (template_spec m n a st Hm) as (H1 & H2 & H3 & H4 & H5).
  destruct (template m n st) as [node st'] eqn:E. simpl in *.
  by exists node, st'.
Qed.

End Heap.

Section Numerics.

Variable npdtype : scalar → scalar.
Variables np_sin np_cos : float → float.
Variable expm : ndarray → ndarray.
Variable rng : Type.
Variable seed_state : Z → rng.
Variable random_rand3 : rng → (float * float * float) * rng.
Variable unitary_group_rvs : rng → ndarray * rng.
Implicit Types st : state rng.

Local Abbreviation rgate := (Gates.rgate np_sin np_cos expm seed_state random_rand3).
Local Abbreviation random_two_qubit_gate :=
  (Gates.random_two_qubit_gate seed_state unitary_group_rvs).
Local Abbreviation run :=
  (GatesSpec.run np_sin np_cos expm seed_state random_rand3 unitary_group_rvs).

Lemma seed_if_given_spec seed st st' :
  seed_if_given seed_state seed st = Ok st' →
  ns st' = ns st ∧ heap st' = heap st.
Proof.
  unfold seed_if_given, np_random_seed.
  destruct (truthy seed); [|by intros [= <-]].
  case_bool_decide; [|done]. by intros [= <-].
Qed.

(** A seed different from 0 and in the range numpy accepts is the
    state the draws start from. *)
Lemma seed_if_given_nonzero (s : Z) st :
  (0 < s < 2 ^ 32)%Z →
  ∃ st', seed_if_given seed_state (Some s) st = Ok st'
         ∧ random st' = seed_state s.
Proof.
  intros Hs. unfold seed_if_given, np_random_seed; simpl.
  destruct (Z.eqb_spec s 0) as [->|_]; [lia|]; simpl.
  rewrite bool_decide_eq_true_2 by lia. by eexists.
Qed.

Lemma global_array_same st st' n :
  ns st' = ns st → heap st' = heap st →
  global_array st' n = global_array st n.
Proof. unfold global_array. by intros -> ->. Qed.

Lemma rgate_untouched seed angle_scale st node st' :
  rgate seed angle_scale st = Ok (node, st') →
  untouched st st' ∧ tensor node ∉ dom (heap st).
Proof.
  unfold Gates.rgate.
  destruct (seed_if_given seed_state seed st) as [st1|] eqn:Hs; [|done].
  apply seed_if_given_spec in Hs as [Hn Hh]. simpl.
  destruct (random_rand3 (random st1)) as [[[r0 r1] r2] g].
  destruct (global_array _ "_x_matrix"); [|done]; simpl.
  destruct (global_array _ "_y_matrix"); [|done]; simpl.
  destruct (global_array _ "_z_matrix"); [|done]; simpl.
  intros [= <- <-]; simpl. rewrite Hh. split; [split|].
  - done.
  - intros l b Hl; simpl. rewrite lookup_insert_ne; [done|].
    intros <-. apply (is_fresh (dom (heap st))).
    apply elem_of_dom. by eexists.
  - apply is_fresh.
Qed.

Lemma random_two_qubit_gate_untouched seed st node st' :
  random_two_qubit_gate seed st = Ok (node, st') →
  untouched st st' ∧ tensor node ∉ dom (heap st).
Proof.
  unfold Gates.random_two_qubit_gate.
  destruct (seed_if_given seed_state seed st) as [st1|] eqn:Hs; [|done].
  apply seed_if_given_spec in Hs as [Hn Hh]. cbn -[alloc deepcopy].
  destruct (unitary_group_rvs (random st1)) as [u g].
  set (st2 := {| ns := ns st1; heap := heap st1; random := g |}).
  assert (H2 : untouched st st2) by (split; simpl; [done|by rewrite Hh]).
  pose proof (alloc_untouched u st2) as H3.
  destruct (alloc u st2) as [l3 st3]; cbn -[alloc deepcopy] in *.
  pose proof (alloc_untouched (reshape (heap st3 !!! l3) [2; 2; 2; 2]) st3) as H4.
  destruct (alloc _ st3) as [l4 st4]; cbn -[alloc deepcopy] in *.
  unfold deepcopy.
  pose proof (alloc_untouched (heap st4 !!! l4) st4) as H5.
  destruct (alloc_spec (heap st4 !!! l4) st4) as (Hf & _).
  destruct (alloc _ st4) as [l5 st5]; cbn -[alloc] in *.
  intros [= <- <-]; cbn.
  assert (H : untouched st st4)
    by (eapply untouched_trans; [|exact H4]; eapply untouched_trans; eauto).
  split; [by eapply untouched_trans|].
  intros [b Hb]%elem_of_dom. apply Hf. apply elem_of_dom.
  exists b. by apply H.
Qed.

Lemma call_gate_untouched g st node st' :
  call_gate g st = Ok (node, st') →
  untouched st st' ∧ tensor node ∉ dom (heap st).
Proof.
  unfold call_gate. destruct (ns st !! g) as [[l|m n|]|]; try done.
  unfold template, deepcopy.
  pose proof (alloc_untouched (heap st !!! m) st) as Hu.
  destruct (alloc_spec (heap st !!! m) st) as (Hf & _).
  destruct (alloc _ st) as [l st1]; simpl in *.
  by intros [= <- <-].
Qed.

Lemma run_untouched op st node st' :
  run op st = Ok (node, st') →
  untouched st st' ∧ tensor node ∉ dom (heap st).
Proof.
  destruct op; simpl.
  - apply call_gate_untouched.
  - apply rgate_untouched.
  - apply random_two_qubit_gate_untouched.
Qed.

(** Building the table itself allocates converted copies and leaves
    the arrays it reads as they are. *)
Lemma meta_gate_step_heap st name st' :
  meta_gate_step npdtype st name = Ok st' →
  ∀ l a, heap st !! l = Some a → heap st' !! l = Some a.
Proof.
  unfold meta_gate_step.
  destruct (endswith name "_matrix" && startswith name "_"); [|by intros [= <-]].
  destruct (ns st !! name) as [[l0|m n|]|]; try done.
  destruct (head (shape (heap st !!! l0))) as [d|]; [|done]; cbn -[alloc].
  set (m := astype _ npdtype).
  pose proof (alloc_untouched m st) as [_ Hu].
  destruct (alloc m st) as [l1 st1]; cbn -[alloc] in *.
  intros [= <-]. exact Hu.
Qed.

Lemma meta_gate_heap st st' :
  meta_gate npdtype st = Ok st' →
  ∀ l a, heap st !! l = Some a → heap st' !! l = Some a.
Proof.
  unfold meta_gate. generalize (dir st) as names.
  intros names; revert st; induction names as [|x names IH]; intros st; simpl.
  - by intros [= <-].
  - destruct (meta_gate_step npdtype st x) as [st1|] eqn:E; [|done]; simpl.
    intros Hr l a Hl. eapply IH; [exact Hr|].
    by eapply meta_gate_step_heap.
Qed.

Lemma gates_load_ok (g : rng) : ∃ st, load npdtype g = Ok st.
Proof. eexists. vm_compute. reflexivity. Qed.

(** After the import every fixed gate is bound, under its name and
    under its name followed by "gate", to a constructor holding the
    converted matrix, and the Pauli matrices are bound as written. *)
Lemma load_table (g : rng) st :
  load npdtype g = Ok st →
  Forall (λ b, ∃ m,
            ns st !! b.1 = Some (VPartial m b.1)
            ∧ ns st !! (b.1 +:+ "gate") = Some (VPartial m b.1)
            ∧ heap st !! m = Some (astype b.2 npdtype))
    gate_table
  ∧ global_array st "_x_matrix" = Ok _x_matrix
  ∧ global_array st "_y_matrix" = Ok _y_matrix
  ∧ global_array st "_z_matrix" = Ok _z_matrix.
Proof.
  intros Hl. vm_compute in Hl. injection Hl as <-. split.
  - repeat apply Forall_cons_2; [..|apply Forall_nil_2];
      eexists; repeat split; vm_compute; reflexivity.
  - repeat split; vm_compute; reflexivity.
Qed.

(** Each fixed gate of the imported module can be called, and the node it
    returns carries the name of the gate and a copy of its converted
    matrix. *)
Lemma fixed_gate_call (g : rng) st (b : string * ndarray) :
  load npdtype g = Ok st → b ∈ gate_table →
  ∃ node st',
    call_gate b.1 st = Ok (node, st')
    ∧ name node = Some b.1
    ∧ heap st' !! tensor node = Some (astype b.2 npdtype)
    ∧ untouched st st'.
Proof.
  intros Hl Hb. apply load_table in Hl as [Ht _].
  rewrite Forall_forall in Ht. destruct (Ht b Hb) as (m & Hn & _ & Hm).
  destruct (call_gate_spec b.1 m b.1 _ st Hn Hm)
    as (node & st' & Hc & Hname & _ & _ & Hh & Hu).
  exists node, st'. split; [done|]. split; [done|]. split; [|done].
  rewrite Hh. apply lookup_insert_eq.
Qed.

(** C3: [rgate] takes three draws of the random source, multiplies each
    by 2 and by pi to get theta, alpha and phi, forms
    mx = sin(alpha) cos(phi), my = sin(alpha) sin(phi), mz = cos(alpha),
    scales theta by [angle_scale], and returns a node without name
    whose tensor is a new array holding the matrix exponential of
    -i theta (mx·X + my·Y·mz·Z), where the Y and Z terms are multiplied
    entry by entry and not added. *)
Theorem rgate_unitary (seed : option Z) (angle_scale : float) st st1
    (r0 r1 r2 : float) (g : rng) :
  seed_if_given seed_state seed st = Ok st1 →
  random_rand3 (random st1) = ((r0, r1, r2), g) →
  global_array st "_x_matrix" = Ok _x_matrix →
  global_array st "_y_matrix" = Ok _y_matrix →
  global_array st "_z_matrix" = Ok _z_matrix →
  let theta := (r0 * 2 * np_pi)%float in
  let alpha := (r1 * 2 * np_pi)%float in
  let phi := (r2 * 2 * np_pi)%float in
  let mx := (np_sin alpha * np_cos phi)%float in
  let my := (np_sin alpha * np_sin phi)%float in
  let mz := np_cos alpha in
  ∃ l st',
    rgate seed angle_scale st = Ok ({| tensor := l; name := None |}, st')
    ∧ heap st' !! l
      = Some (expm (scale (mul (neg j) (Real (theta * angle_scale)))
                      (generator mx my mz)))
    ∧ (l ∉ dom (heap st))
    ∧ untouched st st'
    ∧ random st' = g.
Proof.
  intros Hs Hr Hx Hy Hz theta alpha phi mx my mz.
  pose proof (seed_if_given_spec _ _ _ Hs) as [Hn Hh].
  unfold Gates.rgate. rewrite Hs; cbn -[alloc global_array].
  rewrite Hr.
  set (st2 := {| ns := ns st1; heap := heap st1; random := g |}).
  rewrite (global_array_same st st2 "_x_matrix"), Hx by done.
  rewrite (global_array_same st st2 "_y_matrix"), Hy by done.
  rewrite (global_array_same st st2 "_z_matrix"), Hz by done.
  cbn -[alloc].
  match goal with |- context [alloc ?u st2] => set (unitary := u) end.
  destruct (alloc_spec unitary st2) as (Hf & Hheap & Hns & Hrand).
  pose proof (alloc_untouched unitary st2) as [Hu1 Hu2].
  destruct (alloc unitary st2) as [l st3]; cbn -[alloc] in *.
  exists l, st3. split; [done|]. split; [|split; [|split]].
  - rewrite Hheap, lookup_insert_eq. reflexivity.
  - by rewrite <- Hh.
  - split; [congruence|]. intros k b Hk. apply Hu2. by rewrite Hh.
  - done.
Qed.

(** C4: a seed of 0 is not used.  [rgate] and [random_two_qubit_gate]
    called with the seed 0 leave the random source as it is and behave
    exactly as when they are called without seed: the draw is made from
    the state the source had before the call, not from the state the
    seed 0 yields. *)
Theorem seed_zero_not_used (angle_scale : float) st :
  seed_if_given seed_state (Some 0%Z) st = Ok st
  ∧ rgate (Some 0%Z) angle_scale st = rgate None angle_scale st
  ∧ random_two_qubit_gate (Some 0%Z) st = random_two_qubit_gate None st
  ∧ (∀ node st', rgate (Some 0%Z) angle_scale st = Ok (node, st') →
       random st' = (random_rand3 (random st)).2)
  ∧ (∀ node st', random_two_qubit_gate (Some 0%Z) st = Ok (node, st') →
       random st' = (unitary_group_rvs (random st)).2).
Proof.
  split; [reflexivity|]. split; [reflexivity|]. split; [reflexivity|]. split.
  - intros node st'. unfold Gates.rgate.
    change (seed_if_given seed_state (Some 0%Z) st) with (Ok st).
    cbn -[alloc global_array].
    destruct (random_rand3 (random st)) as [[[r0 r1] r2] g]; simpl.
    destruct (global_array _ "_x_matrix"); [|done]; cbn -[alloc global_array].
    destruct (global_array _ "_y_matrix"); [|done]; cbn -[alloc global_array].
    destruct (global_array _ "_z_matrix"); [|done]; cbn.
    by intros [= <- <-].
  - intros node st'. unfold Gates.random_two_qubit_gate.
    change (seed_if_given seed_state (Some 0%Z) st) with (Ok st). cbn.
    destruct (unitary_group_rvs (random st)) as [u g]; cbn.
    by intros [= <- <-].
Qed.

(** C9: a call of a fixed-gate constructor returns a node whose tensor
    is a new array with the elements of the matrix of the table; a
    second call returns another new array; both differ from the array
    of the table, which keeps its elements; writing into the array of
    the first node changes neither the second nor the table; and no
    function of the module that hands out nodes changes an array that
    exists when it is called. *)
Theorem gate_nodes_independent (gate : string) (m : loc) (n : string)
    (a : ndarray) st :
  ns st !! gate = Some (VPartial m n) →
  heap st !! m = Some a →
  ∃ n1 st1 n2 st2,
    call_gate gate st = Ok (n1, st1)
    ∧ call_gate gate st1 = Ok (n2, st2)
    ∧ name n1 = Some n ∧ name n2 = Some n
    ∧ heap st1 !! tensor n1 = Some a
    ∧ heap st2 !! tensor n2 = Some a
    ∧ tensor n1 ≠ m ∧ tensor n2 ≠ m ∧ tensor n1 ≠ tensor n2
    ∧ (tensor n1 ∉ dom (heap st)) ∧ (tensor n2 ∉ dom (heap st1))
    ∧ heap st2 !! m = Some a
    ∧ (∀ b, <[tensor n1 := b]> (heap st2) !! tensor n2 = Some a
            ∧ <[tensor n1 := b]> (heap st2) !! m = Some a)
    ∧ (∀ op node st', run op st = Ok (node, st') →
         ∀ l b, heap st !! l = Some b → heap st' !! l = Some b).
Proof.
  intros Hg Hm.
  destruct (call_gate_spec gate m n a st Hg Hm)
    as (n1 & st1 & Hc1 & Hn1 & Hf1 & Hm1 & Hh1 & [Hns1 Hu1]).
  assert (Hg1 : ns st1 !! gate = Some (VPartial m n)) by (by rewrite Hns1).
  destruct (call_gate_spec gate m n a st1 Hg1 (Hu1 _ _ Hm))
    as (n2 & st2 & Hc2 & Hn2 & Hf2 & Hm2 & Hh2 & [Hns2 Hu2]).
  assert (H11 : heap st1 !! tensor n1 = Some a)
    by (rewrite Hh1; apply lookup_insert_eq).
  assert (H12 : tensor n1 ≠ tensor n2).
  { intros Heq. apply Hf2. rewrite <- Heq. apply elem_of_dom. by eexists. }
  exists n1, st1, n2, st2. repeat split; try done.
  - rewrite Hh2. apply lookup_insert_eq.
  - auto.
  - rewrite lookup_insert_ne by done. rewrite Hh2. apply lookup_insert_eq.
  - rewrite lookup_insert_ne by done. auto.
  - intros op node st' Hrun. by apply run_untouched in Hrun as [[_ Hu] _].
Qed.

End Numerics.

(** The generator at a sample point: the product of the Y and Z terms
    vanishes entry by entry, which the sum of the three terms does not. *)
Lemma generator_sample :
  generator 0.5 0.25 0.5
  = {| shape := [2; 2];
       data := [Complex 0 0; Complex 0.5 0; Complex 0.5 0; Complex 0 0] |}.
Proof. vm_compute. reflexivity. Qed.

Lemma generator_not_bloch_sum :
  generator 0.5 0.25 0.5 ≠ bloch_sum 0.5 0.25 0.5.
Proof.
  intros Heq.
  apply (f_equal (λ a, match data a with
                       | Complex re _ :: _ => PrimFloat.eqb re 0
                       | _ => false
                       end)) in Heq.
  vm_compute in Heq. discriminate.
Qed.

Lemma rgate_unitary_witness :
  ∃ st l st',
    load Examples.complex128 0 = Ok st
    ∧ rgate Examples.identity Examples.identity Examples.no_expm
        Examples.seed_state Examples.random_rand3 (Some 7%Z) 1.0%float st
      = Ok ({| tensor := l; name := None |}, st')
    ∧ random st' = 8.
Proof.
  destruct (gates_load_ok Examples.complex128 nat 0) as [st Hst].
  destruct (load_table Examples.complex128 nat 0 st Hst) as (_ & Hx & Hy & Hz).
  destruct (seed_if_given_nonzero nat Examples.seed_state 7%Z st) as (st1 & Hs & Hr);
    [lia|].
  destruct (rgate_unitary Examples.identity Examples.identity Examples.no_expm
              nat Examples.seed_state Examples.random_rand3 (Some 7%Z) 1.0%float
              st st1 0.5%float 0.25%float 0.125%float 8)
    as (l & st' & Hrun & _ & _ & _ & Hg); try assumption.
  - unfold Examples.random_rand3. rewrite Hr. reflexivity.
  - exists st, l, st'. repeat split; assumption.
Defined.

Lemma gate_nodes_independent_witness :
  ∃ st n1 st1 n2 st2,
    load Examples.complex128 0 = Ok st
    ∧ call_gate "x" st = Ok (n1, st1)
    ∧ call_gate "x" st1 = Ok (n2, st2)
    ∧ heap st2 !! tensor n1 = heap st2 !! tensor n2
    ∧ tensor n1 ≠ tensor n2.
Proof.
  destruct (gates_load_ok Examples.complex128 nat 0) as [st Hst].
  destruct (load_table Examples.complex128 nat 0 st Hst) as (Ht & _).
  apply Forall_cons_1 in Ht as [_ Ht]. apply Forall_cons_1 in Ht as [_ Ht].
  apply Forall_cons_1 in Ht as [(m & Hn & _ & Hm) _]. simpl in Hn, Hm.
  destruct (gate_nodes_independent Examples.identity Examples.identity
              Examples.no_expm nat Examples.seed_state Examples.random_rand3
              Examples.unitary_group_rvs "x" m "x" _ st Hn Hm)
    as (n1 & st1 & n2 & st2 & H1 & H2 & _ & _ & _ & H22 & _ & _ & Hne & _ & _
        & _ & Hw & _).
  exists st, n1, st1, n2, st2. repeat split; try assumption.
  destruct (Hw (vector [])) as [Hw2 _].
  rewrite lookup_insert_ne in Hw2 by done. rewrite H22.
  destruct (call_gate_untouched nat "x" st1 n2 st2 H2) as [[_ Hu] _].
  apply Hu.
  destruct (call_gate_spec "x" m "x" _ st Hn Hm) as (n1' & st1' & Hc & _ & _ & _ & Hh & _).
  rewrite H1 in Hc. injection Hc as <- <-. rewrite Hh. apply lookup_insert_eq.
Defined.

End GatesFacts.

(** * Further properties of the layer generators *)

Module LayersMore.

Import Circuit Layers Spec Count LayersFacts.

Lemma call_double_gate_calls f c q1 q2 angle :
  call_double_gate f c q1 q2 angle = extend c (gate_calls f q1 q2 angle).
Proof.
  unfold gate_calls, call_double_gate, H, CNOT, rx, rz.
  destruct (Ascii.eqb (d1 f) "x"), (Ascii.eqb (d1 f) "y"),
    (Ascii.eqb (d2 f) "x"), (Ascii.eqb (d2 f) "y");
    rewrite !apply_extend, !extend_extend; reflexivity.
Qed.

Lemma blank_extend c cs : blank (extend c cs) = blank c.
Proof. done. Qed.

(** A loop whose body appends calls that do not depend on the calls
    already made appends calls that do not depend on them either. *)
Lemma for_each_appends {A : Type} (body : Circuit.t → A → result Circuit.t)
    (l : list A) :
  (∀ c x, body c x = (c0 <-- body (blank c) x ;; Ok (extend c (applied c0)))) →
  ∀ c, for_each body l c
       = (c0 <-- for_each body l (blank c) ;; Ok (extend c (applied c0))).
Proof.
  intros Hb. induction l as [|x l IH]; intros c; simpl.
  - by rewrite extend_nil.
  - rewrite (Hb c x). destruct (body (blank c) x) as [c0|e] eqn:E0; simpl; [|done].
    assert (Hc0 : blank c0 = blank c).
    { pose proof (Hb (blank c) x) as Hbb.
      change (blank (blank c)) with (blank c) in Hbb.
      rewrite E0 in Hbb. simpl in Hbb. injection Hbb as ->. done. }
    rewrite (IH (extend c (applied c0))), (IH c0), blank_extend, Hc0.
    destruct (for_each body l (blank c)) as [c2|e]; simpl; [|done].
    by rewrite extend_extend.
Qed.

(** X1: what a layer appends to a circuit, and whether it fails, depends
    on the qubit count, the symbol, the graph and the namespace only: the
    result on a circuit is the result on the circuit without its calls,
    put behind the calls already made. *)
Theorem layer_appends (sgates : list string) (ns : gmap string value)
    (f : layer) (c : Circuit.t) (symbol : option float) (g : option Graph.t) :
  call_layer sgates ns f c symbol g
  = (c0 <-- call_layer sgates ns f (blank c) symbol g ;;
     Ok (extend c (applied c0))).
Proof.
  unfold call_layer. destruct (body f) as [gate|gates].
  - destruct (bool_decide (lower gate ∈ sgates)).
    + apply (for_each_appends (λ circuit n, Ok (apply circuit gate [n] None))).
      intros c1 x; simpl. by rewrite !apply_extend.
    + apply (for_each_appends
               (λ circuit n, th <-- twice symbol ;;
                             Ok (apply circuit gate [n] (Some th)))).
      intros c1 x. destruct (twice symbol); simpl; [|done].
      by rewrite !apply_extend.
  - change (_nqubits (blank c)) with (_nqubits c).
    apply (for_each_appends (double_layer_step ns gates symbol _)).
    intros c1 [u v]. unfold double_layer_step.
    destruct (getattr ns (gates +:+ "gate")) as [[fn|fl]|]; simpl; try done.
    + destruct (negate symbol); simpl; [|done].
      destruct (Graph.getitem _ u v); simpl; [|done].
      rewrite (call_double_gate_calls fn c1), (call_double_gate_calls fn (blank c1)).
      done.
    + destruct (negate symbol); simpl; [|done].
      by destruct (Graph.getitem _ u v).
Qed.

Lemma layer_appends_witness :
  call_layer ["h"] ∅ (gate_layer ["h"] "rx")
    (Circuit.Make 1 [Call "H" [0] None]) (Some 0.5%float) None
  = Ok (Circuit.Make 1 [Call "H" [0] None; Call "rx" [0] (Some 1.0%float)]).
Proof.
  rewrite (layer_appends ["h"] ∅ (gate_layer ["h"] "rx")
             (Circuit.Make 1 [Call "H" [0] None]) (Some 0.5%float) None).
  vm_compute. reflexivity.
Defined.

Lemma for_each_mut_outcome {A : Type} (body : Circuit.t → A → result Circuit.t)
    (l : list A) (c : Circuit.t) :
  for_each body l c = InPlace.outcome (InPlace.for_each_mut body l c).
Proof.
  revert c; induction l as [|x l IH]; intros c; simpl; [done|].
  destruct (body c x) as [c'|e]; simpl; [apply IH|done].
Qed.

(** The value a layer returns or the exception it raises is the one of
    the run that keeps track of the circuit. *)
Lemma run_layer_outcome sgates ns f c symbol g :
  call_layer sgates ns f c symbol g
  = InPlace.outcome (InPlace.run_layer sgates ns f c symbol g).
Proof.
  unfold call_layer, InPlace.run_layer. destruct (body f) as [gate|gates].
  - destruct (bool_decide (lower gate ∈ sgates)); apply for_each_mut_outcome.
  - apply for_each_mut_outcome.
Qed.

(** X2: a rotation layer called without symbol raises a type error
    before any gate is applied, so that the circuit of the caller is left
    with exactly the calls it had, unless the circuit has no qubit, in
    which case the layer returns the circuit as it is. *)
Theorem rotation_layer_without_symbol (sgates : list string)
    (ns : gmap string value) (gate : string) (c : Circuit.t)
    (g : option Graph.t) :
  lower gate ∉ sgates →
  (_nqubits c ≠ 0 →
   call_layer sgates ns (gate_layer sgates gate) c None g = Raise TypeError
   ∧ InPlace.run_layer sgates ns (gate_layer sgates gate) c None g
     = (c, Some TypeError))
  ∧ (_nqubits c = 0 →
     call_layer sgates ns (gate_layer sgates gate) c None g = Ok c
     ∧ InPlace.run_layer sgates ns (gate_layer sgates gate) c None g
       = (c, None)).
Proof.
  intros Hg.
  assert (Hrun : InPlace.run_layer sgates ns (gate_layer sgates gate) c None g
                 = (c, match _nqubits c with 0 => None | S _ => Some TypeError end)).
  { unfold InPlace.run_layer; simpl. rewrite bool_decide_eq_false_2 by done.
    by destruct (_nqubits c). }
  split; intros Hn; rewrite run_layer_outcome, Hrun.
  - destruct (_nqubits c); [done|]. by split.
  - rewrite Hn. by split.
Qed.

Lemma rotation_layer_without_symbol_witness :
  call_layer ["h"] ∅ (gate_layer ["h"] "rz")
    (Circuit.Make 2 [Call "H" [0] None]) None None = Raise TypeError
  ∧ InPlace.run_layer ["h"] ∅ (gate_layer ["h"] "rz")
      (Circuit.Make 2 [Call "H" [0] None]) None None
    = (Circuit.Make 2 [Call "H" [0] None], Some TypeError).
Proof.
  destruct (rotation_layer_without_symbol ["h"] ∅ "rz"
              (Circuit.Make 2 [Call "H" [0] None]) None) as [Hfail _].
  - intros Hin. apply (bool_decide_eq_true_2 _) in Hin. vm_compute in Hin.
    discriminate.
  - apply Hfail. discriminate.
Defined.

(** X3: a two-qubit layer looks its double gate up once per edge.  Over a
    graph without edges it returns the circuit as it is, whatever the
    namespace and the symbol are; over a graph with an edge it fails with
    an attribute error when no double gate is bound to the label, and
    with a type error when one is bound and the symbol is missing. *)
Theorem double_layer_failures (sgates : list string) (ns : gmap string value)
    (gates : string) (c : Circuit.t) (symbol : option float)
    (g : option Graph.t) :
  let run sym := call_layer sgates ns (double_gate_layer gates) c sym g in
  (Graph.edges (graph_of g c) = [] → run symbol = Ok c)
  ∧ (Graph.edges (graph_of g c) ≠ [] → ns !! (gates +:+ "gate") = None →
     run symbol = Raise AttributeError)
  ∧ (Graph.edges (graph_of g c) ≠ [] →
     ∀ f, ns !! (gates +:+ "gate") = Some (VGate f) →
          run None = Raise TypeError).
Proof.
  intros run. subst run. unfold call_layer; simpl. fold (graph_of g c).
  split; [|split].
  - intros ->. reflexivity.
  - intros He Hns. destruct (Graph.edges (graph_of g c)) as [|[u v] l]; [done|].
    simpl. unfold getattr. rewrite Hns. reflexivity.
  - intros He f Hns. destruct (Graph.edges (graph_of g c)) as [|[u v] l]; [done|].
    simpl. unfold getattr. rewrite Hns. reflexivity.
Qed.

Lemma double_layer_failures_witness :
  call_layer ["h"] ∅ (double_gate_layer "ab") (Circuit.Make 2 []) (Some 1.0%float) None
  = Raise AttributeError.
Proof.
  destruct (double_layer_failures ["h"] ∅ "ab" (Circuit.Make 2 [])
              (Some 1.0%float) None) as (_ & Hmissing & _).
  apply Hmissing; [discriminate|reflexivity].
Defined.

Lemma sandwich_length b1 b2 q1 q2 angle :
  length (sandwich b1 b2 q1 q2 angle) = 3 + 2 * (basis_cost b1 + basis_cost b2).
Proof. destruct b1, b2; reflexivity. Qed.

Lemma foldl_gate_length (f : double_gate) (k : nat) (angle : nat * nat → float)
    (l : list (nat * nat)) (c : Circuit.t) :
  (∀ q1 q2 a, length (gate_calls f q1 q2 a) = k) →
  length (applied (foldl (λ c e, call_double_gate f c e.1 e.2 (angle e)) c l))
  = length (applied c) + length l * k.
Proof.
  intros Hk. revert c; induction l as [|e l IH]; intros c; simpl; [lia|].
  rewrite IH, call_double_gate_calls; simpl.
  rewrite length_app, Hk. lia.
Qed.

Lemma gate_calls_sandwich b1 b2 q1 q2 angle :
  gate_calls (double_gate_of b1 b2) q1 q2 angle = sandwich b1 b2 q1 q2 angle.
Proof.
  unfold gate_calls, double_gate_of. by rewrite call_double_gate_sandwich.
Qed.

(** X4: the two-qubit layer for the labels (b1, b2) adds, for every edge
    of the graph, three calls (CNOT, rz, CNOT) and two more for each of
    the two labels that is x or y. *)
Theorem double_layer_call_count (sgates : list string) (st : state)
    (b1 b2 : basis) (c c' : Circuit.t) (s : float) (g : option Graph.t) :
  load sgates = Ok st →
  (∀ g', g = Some g' → well_formed g') →
  call_layer sgates (ns st) (double_gate_layer (label b1 +:+ label b2)) c
    (Some s) g = Ok c' →
  _nqubits c' = _nqubits c
  ∧ length (applied c')
    = length (applied c)
      + length (Graph.edges (graph_of g c))
        * (3 + 2 * (basis_cost b1 + basis_cost b2)).
Proof.
  intros Hl Hg. unfold call_layer; simpl. fold (graph_of g c).
  rewrite (double_layer_loop (ns st) _ (double_gate_of b1 b2));
    [|by apply (load_gate sgates)|by apply graph_of_well_formed].
  intros [= <-]. split.
  - generalize (Graph.edges (graph_of g c)) as l. intros l.
    generalize (graph_of g c) as g0. intros g0.
    revert c; induction l as [|e l IH]; intros c; simpl; [done|].
    rewrite IH. by rewrite call_double_gate_calls.
  - apply (foldl_gate_length (double_gate_of b1 b2)).
    intros. by rewrite gate_calls_sandwich, sandwich_length.
Qed.

Lemma double_layer_call_count_witness :
  ∃ st c', load ["h"] = Ok st
    ∧ call_layer ["h"] (ns st) (double_gate_layer "xy") (Circuit.Make 3 [])
        (Some 0.5%float) None = Ok c'
    ∧ length (applied c') = 21.
Proof.
  destruct (layers_load_ok ["h"]) as [st Hst].
  destruct (call_layer ["h"] (ns st) (double_gate_layer "xy") (Circuit.Make 3 [])
              (Some 0.5%float) None) as [c'|e] eqn:E.
  - exists st, c'. split; [exact Hst|]. split; [exact E|].
    destruct (double_layer_call_count ["h"] st X Y (Circuit.Make 3 []) c'
                0.5%float None Hst) as [_ Hlen]; [discriminate|exact E|].
    rewrite Hlen. reflexivity.
  - exfalso. vm_compute in Hst. injection Hst as <-. vm_compute in E. discriminate.
Defined.

Lemma combinations2_elem s n u v :
  (u, v) ∈ Graph.combinations2 (seq s n) ↔ s ≤ u ∧ u < v ∧ v < s + n.
Proof.
  split; [apply combinations2_bounds|].
  revert s; induction n as [|n IH]; intros s (Hs & Huv & Hv); simpl; [lia|].
  apply elem_of_app. destruct (decide (u = s)) as [->|Hne].
  - left. apply list_elem_of_fmap. exists v. split; [done|].
    apply elem_of_seq. lia.
  - right. apply IH. lia.
Qed.

Lemma combinations2_NoDup s n : NoDup (Graph.combinations2 (seq s n)).
Proof.
  revert s; induction n as [|n IH]; intros s; simpl; [constructor|].
  apply NoDup_app. split; [|split].
  - apply NoDup_fmap_2; [|apply NoDup_seq]. by intros x y [= ->].
  - intros [u v] Hin Hin'. apply list_elem_of_fmap in Hin as (w & [= -> ->] & _).
    apply combinations2_bounds in Hin'. lia.
  - apply IH.
Qed.

Lemma combinations2_length s n :
  2 * length (Graph.combinations2 (seq s n)) = n * (n - 1).
Proof.
  revert s; induction n as [|n IH]; intros s; simpl; [done|].
  rewrite length_app, length_map, length_seq.
  specialize (IH (S s)). replace (n - 0) with n by lia. nia.
Qed.

(** X5: called without a graph on a circuit of n qubits, a two-qubit
    layer calls its double gate once for every pair u < v < n and for no
    other pair, with u as the first qubit (the control of the CNOTs) and v
    as the second, n (n - 1) / 2 times in all, each time with the angle
    [-symbol * 1.0 * 2]. *)
Theorem layer_without_graph (sgates : list string) (st : state)
    (b1 b2 : basis) (c : Circuit.t) (s : float) :
  load sgates = Ok st →
  let pairs := Graph.edges (Graph.complete_graph (_nqubits c)) in
  call_layer sgates (ns st) (double_gate_layer (label b1 +:+ label b2)) c
    (Some s) None
  = Ok (foldl (λ c e, call_double_gate (double_gate_of b1 b2) c e.1 e.2
                        (- s * 1.0 * 2)%float) c pairs)
  ∧ (∀ u v, (u, v) ∈ pairs ↔ u < v ∧ v < _nqubits c)
  ∧ NoDup pairs
  ∧ 2 * length pairs = _nqubits c * (_nqubits c - 1).
Proof.
  intros Hl pairs. split; [|split; [|split]].
  - unfold call_layer; simpl.
    rewrite (double_layer_loop (ns st) _ (double_gate_of b1 b2));
      [|by apply (load_gate sgates)|apply complete_graph_well_formed].
    f_equal. apply foldl_ext_in. intros c0 [u v] Hin; simpl.
    by rewrite complete_graph_weight.
  - intros u v. subst pairs; simpl. rewrite combinations2_elem. lia.
  - apply combinations2_NoDup.
  - apply combinations2_length.
Qed.

Lemma layer_without_graph_witness :
  ∃ st, load ["h"] = Ok st
    ∧ call_layer ["h"] (ns st) (double_gate_layer "zz") (Circuit.Make 2 [])
        (Some 0.25%float) None
      = Ok (Circuit.Make 2
              [Call "CNOT" [0; 1] None; Call "rz" [1] (Some (-0.5)%float);
               Call "CNOT" [0; 1] None]).
Proof.
  destruct (layers_load_ok ["h"]) as [st Hst]. exists st. split; [exact Hst|].
  destruct (layer_without_graph ["h"] st Z Z (Circuit.Make 2 []) 0.25%float Hst)
    as [Hrun _].
  refine (eq_trans Hrun _). vm_compute. reflexivity.
Defined.

(** X6: of two calls of the setter only the second counts: after a call
    that succeeded, a further call gives what it would have given
    without the first. *)
Theorem set_choice_last_wins (l1 l2 : option (list value)) (st st1 : state) :
  set_choice l1 st = Ok st1 →
  set_choice l2 st1 = set_choice l2 st.
Proof.
  intros H1. apply set_choice_ns in H1. unfold set_choice. by rewrite H1.
Qed.

Lemma set_choice_last_wins_witness :
  set_choice (Some [VGate (double_gate_of X X)])
    (State ∅ [VGate (double_gate_of Z Z)])
  = set_choice (Some [VGate (double_gate_of X X)]) (State ∅ []).
Proof.
  apply (set_choice_last_wins (Some [VGate (double_gate_of Z Z)]) _ (State ∅ [])).
  reflexivity.
Defined.

Lemma lower_fixed_point_flag sgates gate :
  lower gate = gate →
  __trainable__ (gate_layer sgates gate) = negb (bool_decide (lower gate ∈ sgates)).
Proof. intros ->. reflexivity. Qed.

(** X7: for a gate name written in lower case the flag and the behaviour
    of the generated layer agree: the layer is marked non-trainable and
    applies the gate without parameter when the name is one of the fixed
    gates, and is marked trainable and applies it with the angle
    [2 * symbol] when it is not. *)
Theorem lower_case_layer_flag (sgates : list string) (gate : string) :
  lower gate = gate →
  (gate ∈ sgates →
   __trainable__ (gate_layer sgates gate) = false
   ∧ ∀ ns c symbol g,
       call_layer sgates ns (gate_layer sgates gate) c symbol g
       = Ok (extend c (map (λ q, Call gate [q] None) (seq 0 (_nqubits c)))))
  ∧ (gate ∉ sgates →
     __trainable__ (gate_layer sgates gate) = true
     ∧ ∀ ns c s g,
         call_layer sgates ns (gate_layer sgates gate) c (Some s) g
         = Ok (extend c (map (λ q, Call gate [q] (Some (2 * s)%float))
                           (seq 0 (_nqubits c))))).
Proof.
  intros Hlow. split; intros Hin.
  - split; [by apply trainable_flag|].
    intros. apply call_fixed_layer. by rewrite Hlow.
  - split.
    + destruct (__trainable__ (gate_layer sgates gate)) eqn:E; [done|].
      by apply trainable_flag in E.
    + intros. apply call_rotation_layer. by rewrite Hlow.
Qed.

Lemma lower_case_layer_flag_witness :
  __trainable__ (gate_layer ["h"] "rx") = true
  ∧ __trainable__ (gate_layer ["h"] "h") = false.
Proof.
  split.
  - destruct (lower_case_layer_flag ["h"] "rx") as [_ Hrot]; [reflexivity|].
    apply Hrot. intros Hin. apply (bool_decide_eq_true_2 _) in Hin.
    vm_compute in Hin. discriminate.
  - destruct (lower_case_layer_flag ["h"] "h") as [Hfix _]; [reflexivity|].
    apply Hfix. apply (bool_decide_eq_true_1 _). vm_compute. reflexivity.
Defined.

(** X8: only the first two characters of a label reach the double gate.
    A label that starts with two basis letters and goes on with anything
    yields the applier of these two letters, bound under the whole label
    followed by "gate"; no other name of the module is changed. *)
Theorem double_gate_label_prefix (b1 b2 : basis) (rest : string)
    (ns : gmap string value) :
  let gates := (label b1 +:+ label b2) +:+ rest in
  ∃ f ns',
    generate_double_gate gates ns = Ok ns'
    ∧ ns' !! (gates +:+ "gate") = Some (VGate f)
    ∧ (∀ k, k ≠ gates +:+ "gate" → ns' !! k = ns !! k)
    ∧ ∀ c q1 q2 angle,
        call_double_gate f c q1 q2 angle = extend c (sandwich b1 b2 q1 q2 angle).
Proof.
  intros gates.
  set (f := {| d1 := label_char b1; d2 := label_char b2;
               gate_doc := gates +:+ "gate" |}).
  exists f, (<[gates +:+ "gate" := VGate f]> ns). split; [|split; [|split]].
  - subst gates. destruct b1, b2; reflexivity.
  - apply lookup_insert_eq.
  - intros k Hk. by apply lookup_insert_ne.
  - intros. apply call_double_gate_sandwich.
Qed.

Lemma double_gate_label_prefix_witness :
  ∃ f, generate_double_gate "xyz" ∅ = Ok {[ "xyzgate" := VGate f ]}
       ∧ call_double_gate f (Circuit.Make 2 []) 0 1 0.5%float
         = Circuit.Make 2 (sandwich X Y 0 1 0.5%float).
Proof.
  destruct (double_gate_label_prefix X Y "z" ∅) as (f & ns' & Hgen & Hf & _ & Hcall).
  exists f. split; [|apply Hcall].
  simpl in Hgen. injection Hgen as <-.
  rewrite lookup_insert_eq in Hf. injection Hf as <-. reflexivity.
Defined.

(** X9: a two-qubit layer finds its double gate when it is called, not
    when it is generated.  A layer generated for a label before the
    double gate of that label exists works once the double gate has been
    generated, and uses the two characters the double gate was built
    from. *)
Theorem double_layer_late_binding (sgates : list string)
    (ns ns' : gmap string value) (c1 c2 : ascii) (rest : string)
    (c : Circuit.t) (s : float) (g : option Graph.t) :
  let gates := String c1 (String c2 rest) in
  let f := {| d1 := c1; d2 := c2; gate_doc := gates +:+ "gate" |} in
  (∀ g', g = Some g' → well_formed g') →
  generate_double_gate gates (generate_double_gate_layer gates ns) = Ok ns' →
  ns' !! (gates +:+ "layer") = Some (VLayer (double_gate_layer gates))
  ∧ call_layer sgates ns' (double_gate_layer gates) c (Some s) g
    = Ok (foldl (λ c0 e, call_double_gate f c0 e.1 e.2
                           (- s * edge_weight (graph_of g c) e.1 e.2 * 2)%float)
            c (Graph.edges (graph_of g c))).
Proof.
  intros gates f Hg Hgen.
  assert (Hns : ns' = <[gates +:+ "gate" := VGate f]>
                        (generate_double_gate_layer gates ns)).
  { subst gates f. simpl in Hgen. by injection Hgen as <-. }
  split.
  - rewrite Hns. rewrite lookup_insert_ne.
    + apply lookup_insert_eq.
    + subst gates. clear. intros Heq. simpl in Heq. injection Heq as Heq.
      revert Heq. generalize rest as r. intros r; induction r as [|a r IH]; simpl.
      * discriminate.
      * intros [= Heq]. auto.
  - unfold call_layer; simpl. fold (graph_of g c).
    apply double_layer_loop; [|by apply graph_of_well_formed].
    rewrite Hns. apply lookup_insert_eq.
Qed.

Lemma double_layer_late_binding_witness :
  ∃ ns', generate_double_gate "ab" (generate_double_gate_layer "ab" ∅) = Ok ns'
    ∧ call_layer ["h"] ns' (double_gate_layer "ab") (Circuit.Make 2 [])
        (Some 1.0%float) None
      = Ok (Circuit.Make 2
              [Call "CNOT" [0; 1] None; Call "rz" [1] (Some (-2.0)%float);
               Call "CNOT" [0; 1] None]).
Proof.
  destruct (generate_double_gate "ab" (generate_double_gate_layer "ab" ∅))
    as [ns'|e] eqn:E; [|discriminate].
  exists ns'. split; [reflexivity|].
  destruct (double_layer_late_binding ["h"] ∅ ns' "a" "b" "" (Circuit.Make 2 [])
              1.0%float None) as [_ Hrun]; [discriminate|exact E|].
  refine (eq_trans Hrun _). vm_compute. reflexivity.
Defined.

End LayersMore.

(** * Further properties of the gate table *)

Module GatesMore.

Import Np Gates GatesSpec GatesFacts.

Lemma string_length_append (a b : string) :
  String.length (a +:+ b) = String.length a + String.length b.
Proof. induction a as [|x a IH]; simpl; [done|]. by rewrite IH. Qed.

Lemma substring_whole (b : string) : String.substring 0 (String.length b) b = b.
Proof. induction b as [|x b IH]; simpl; [done|]. by rewrite IH. Qed.

Lemma substring_prefix (a b : string) :
  String.substring 0 (String.length a) (a +:+ b) = a.
Proof.
  induction a as [|x a IH]; simpl; [by destruct b|]. by rewrite IH.
Qed.

Lemma substring_suffix (a b : string) :
  String.substring (String.length a) (String.length b) (a +:+ b) = b.
Proof. induction a as [|x a IH]; simpl; [apply substring_whole|done]. Qed.

Lemma matrix_name_matches (n : string) :
  endswith ("_" +:+ n +:+ "_matrix") "_matrix"
  && startswith ("_" +:+ n +:+ "_matrix") "_" = true.
Proof.
  apply andb_true_intro. split;
    [|unfold startswith; destruct n; reflexivity].
  unfold endswith. apply andb_true_intro. split.
  - apply Nat.leb_le. simpl. rewrite !string_length_append. simpl. lia.
  - apply String.eqb_eq.
    replace (String.length ("_" +:+ n +:+ "_matrix") - String.length "_matrix")
      with (S (String.length n))
      by (simpl; rewrite !string_length_append; simpl; lia).
    simpl. apply (substring_suffix n "_matrix").
Qed.

Lemma matrix_name_slice (n : string) :
  slice_1_m7 ("_" +:+ n +:+ "_matrix") = n.
Proof.
  unfold slice_1_m7.
  replace (String.length ("_" +:+ n +:+ "_matrix") - 7 - 1)
    with (String.length n)
    by (simpl; rewrite !string_length_append; simpl; lia).
  exact (substring_prefix n "_matrix").
Qed.

Section Numerics.

Variable npdtype : scalar → scalar.
Variables np_sin np_cos : float → float.
Variable expm : ndarray → ndarray.
Variable rng : Type.
Variable seed_state : Z → rng.
Variable random_rand3 : rng → (float * float * float) * rng.
Variable unitary_group_rvs : rng → ndarray * rng.
Implicit Types st : state rng.

Local Abbreviation rgate := (Gates.rgate np_sin np_cos expm seed_state random_rand3).
Local Abbreviation random_two_qubit_gate :=
  (Gates.random_two_qubit_gate seed_state unitary_group_rvs).

(** X10: [meta_gate] takes a name for the name of a matrix exactly when it
    starts with "_" and ends with "_matrix", and the gate name it cuts out
    of "_" n "_matrix" is n, whatever n is; for any other name the
    iteration changes nothing. *)
Theorem matrix_names (n name : string) st :
  endswith ("_" +:+ n +:+ "_matrix") "_matrix"
  && startswith ("_" +:+ n +:+ "_matrix") "_" = true
  ∧ slice_1_m7 ("_" +:+ n +:+ "_matrix") = n
  ∧ (endswith name "_matrix" && startswith name "_" = false →
     meta_gate_step npdtype st name = Ok st).
Proof.
  split; [apply matrix_name_matches|]. split; [apply matrix_name_slice|].
  intros Hno. unfold meta_gate_step. by rewrite Hno.
Qed.

(** X11: one iteration of [meta_gate] on the name "_" n "_matrix" of an
    array binds n and n "gate" to one constructor, which holds a new
    array: the elements of the matrix converted to [npdtype], in the shape
    (2, 2, 2, 2) when the first dimension of the matrix is 4 (it then has
    16 elements) and in the shape of the matrix otherwise.  The matrix
    itself is not converted and every other array stays as it is. *)
Theorem meta_gate_step_registers (n : string) (l : loc) (a : ndarray)
    (d : nat) (ds : list nat) st :
  ns st !! ("_" +:+ n +:+ "_matrix") = Some (VArray l) →
  heap st !! l = Some a →
  shape a = d :: ds →
  (d = 4 → length (data a) = 16) →
  ∃ m st',
    meta_gate_step npdtype st ("_" +:+ n +:+ "_matrix") = Ok st'
    ∧ (m ∉ dom (heap st))
    ∧ ns st' = <[n := VPartial m n]> (<[n +:+ "gate" := VPartial m n]> (ns st))
    ∧ heap st' !! m
      = Some {| shape := if (d =? 4)%nat then [2; 2; 2; 2] else d :: ds;
                data := map npdtype (data a) |}
    ∧ (∀ k b, heap st !! k = Some b → heap st' !! k = Some b).
Proof.
  intros Hn Hl Hs _. unfold meta_gate_step.
  rewrite matrix_name_matches, matrix_name_slice, Hn.
  rewrite (lookup_total_correct _ _ _ Hl), Hs. cbn -[alloc].
  set (m := astype _ npdtype).
  destruct (alloc_spec m st) as (Hf & Hh & Hns & _).
  pose proof (alloc_untouched m st) as [_ Hu].
  destruct (alloc m st) as [l1 st1]; cbn -[alloc] in *.
  exists l1, (setattr n (VPartial l1 n) (setattr (n +:+ "gate") (VPartial l1 n) st1)).
  split; [done|]. split; [done|]. split; [by simpl; rewrite Hns|].
  split; [|exact Hu].
  simpl. rewrite Hh, lookup_insert_eq. f_equal. subst m.
  unfold astype, reshape. destruct (d =? 4)%nat; simpl; by rewrite ?Hs.
Qed.

Lemma random_two_qubit_gate_result (seed : option Z) st st1 (u : ndarray) (g : rng) :
  seed_if_given seed_state seed st = Ok st1 →
  unitary_group_rvs (random st1) = (u, g) →
  ∃ l st',
    random_two_qubit_gate seed st = Ok ({| tensor := l; name := Some "R2Q" |}, st')
    ∧ heap st' !! l = Some (reshape u [2; 2; 2; 2])
    ∧ random st' = g.
Proof.
  intros Hs Hu. unfold Gates.random_two_qubit_gate. rewrite Hs; simpl.
  rewrite Hu; simpl. eexists _, _. split; [reflexivity|]. split; [|done].
  simpl. rewrite lookup_insert_eq. f_equal.
  rewrite lookup_total_insert_eq. f_equal. apply lookup_total_insert_eq.
Qed.

(** X12: [random_two_qubit_gate] returns a node named "R2Q" whose tensor
    is a new array with the shape (2, 2, 2, 2) and the elements of the
    unitary drawn from the random source, in their order; the random
    source is left in the state after the draw and no array that existed
    is changed. *)
Theorem random_two_qubit_gate_node (seed : option Z) st st1 (u : ndarray)
    (g : rng) :
  seed_if_given seed_state seed st = Ok st1 →
  unitary_group_rvs (random st1) = (u, g) →
  ∃ l v st',
    random_two_qubit_gate seed st = Ok ({| tensor := l; name := Some "R2Q" |}, st')
    ∧ heap st' !! l = Some v
    ∧ shape v = [2; 2; 2; 2] ∧ data v = data u
    ∧ (l ∉ dom (heap st))
    ∧ untouched st st'
    ∧ random st' = g.
Proof.
  intros Hs Hu.
  destruct (random_two_qubit_gate_result seed st st1 u g Hs Hu)
    as (l & st' & Hrun & Hl & Hg).
  destruct (random_two_qubit_gate_untouched rng seed_state unitary_group_rvs
              seed st _ st' Hrun) as [Hun Hf].
  exists l, (reshape u [2; 2; 2; 2]), st'.
  split; [done|]. split; [done|]. split; [done|]. split; [done|].
  split; [exact Hf|]. split; [exact Hun|exact Hg].
Qed.

Lemma seed_if_given_valid (s : Z) st :
  (0 < s < 2 ^ 32)%Z →
  seed_if_given seed_state (Some s) st
  = Ok {| ns := ns st; heap := heap st; random := seed_state s |}.
Proof.
  intros Hs. unfold seed_if_given, np_random_seed; simpl.
  destruct (Z.eqb_spec s 0) as [->|_]; [lia|]; simpl.
  by rewrite bool_decide_eq_true_2 by lia.
Qed.

(** X13: with a seed between 1 and 2^32 - 1, [random_two_qubit_gate]
    gives the same tensor and leaves the random source in the same state
    whatever the state of the module was before the call: two calls with
    the same seed agree element for element. *)
Theorem seeded_two_qubit_gate_reproducible (s : Z) st1 st2 :
  (0 < s < 2 ^ 32)%Z →
  ∃ n1 st1' n2 st2' v,
    random_two_qubit_gate (Some s) st1 = Ok (n1, st1')
    ∧ random_two_qubit_gate (Some s) st2 = Ok (n2, st2')
    ∧ heap st1' !! tensor n1 = Some v
    ∧ heap st2' !! tensor n2 = Some v
    ∧ random st1' = random st2'.
Proof.
  intros Hs.
  destruct (unitary_group_rvs (seed_state s)) as [u g] eqn:Hu.
  destruct (random_two_qubit_gate_result (Some s) st1 _ u g
              (seed_if_given_valid s st1 Hs) Hu) as (l1 & st1' & H1 & Hv1 & Hg1).
  destruct (random_two_qubit_gate_result (Some s) st2 _ u g
              (seed_if_given_valid s st2 Hs) Hu) as (l2 & st2' & H2 & Hv2 & Hg2).
  eexists _, st1', _, st2', _. repeat split; try eassumption. congruence.
Qed.

Lemma rgate_result (seed : option Z) (angle_scale : float) st st1
    (r0 r1 r2 : float) (g : rng) (x y z : ndarray) :
  seed_if_given seed_state seed st = Ok st1 →
  random_rand3 (random st1) = ((r0, r1, r2), g) →
  global_array st "_x_matrix" = Ok x →
  global_array st "_y_matrix" = Ok y →
  global_array st "_z_matrix" = Ok z →
  let alpha := (r1 * 2 * np_pi)%float in
  let phi := (r2 * 2 * np_pi)%float in
  ∃ l st',
    rgate seed angle_scale st = Ok ({| tensor := l; name := None |}, st')
    ∧ heap st' !! l
      = Some (expm (scale (mul (neg j) (Real (r0 * 2 * np_pi * angle_scale)))
                      (plus (scale (Real (np_sin alpha * np_cos phi)) x)
                         (times (scale_r (scale (Real (np_sin alpha * np_sin phi)) y)
                                   (Real (np_cos alpha))) z))))
    ∧ random st' = g.
Proof.
  intros Hs Hr Hx Hy Hz alpha phi.
  pose proof (seed_if_given_spec _ _ _ _ _ Hs) as [Hn Hh].
  unfold Gates.rgate. rewrite Hs; cbn -[alloc global_array].
  rewrite Hr.
  set (st2 := {| ns := ns st1; heap := heap st1; random := g |}).
  rewrite (global_array_same rng st st2 "_x_matrix"), Hx by done.
  rewrite (global_array_same rng st st2 "_y_matrix"), Hy by done.
  rewrite (global_array_same rng st st2 "_z_matrix"), Hz by done.
  simpl. eexists _, _. split; [reflexivity|]. split; [|done].
  simpl. by rewrite lookup_insert_eq.
Qed.

(** X14: with a seed between 1 and 2^32 - 1, [rgate] gives the same
    tensor and leaves the random source in the same state in any two
    states of the module in which the three Pauli matrices are bound to
    arrays with the same elements, whatever else the two states hold. *)
Theorem seeded_rgate_reproducible (s : Z) (angle_scale : float) st1 st2
    (x y z : ndarray) :
  (0 < s < 2 ^ 32)%Z →
  global_array st1 "_x_matrix" = Ok x →
  global_array st1 "_y_matrix" = Ok y →
  global_array st1 "_z_matrix" = Ok z →
  global_array st2 "_x_matrix" = Ok x →
  global_array st2 "_y_matrix" = Ok y →
  global_array st2 "_z_matrix" = Ok z →
  ∃ n1 st1' n2 st2' v,
    rgate (Some s) angle_scale st1 = Ok (n1, st1')
    ∧ rgate (Some s) angle_scale st2 = Ok (n2, st2')
    ∧ heap st1' !! tensor n1 = Some v
    ∧ heap st2' !! tensor n2 = Some v
    ∧ random st1' = random st2'.
Proof.
  intros Hs Hx1 Hy1 Hz1 Hx2 Hy2 Hz2.
  destruct (random_rand3 (seed_state s)) as [[[r0 r1] r2] g] eqn:Hr.
  destruct (rgate_result (Some s) angle_scale st1 _ r0 r1 r2 g x y z
              (seed_if_given_valid s st1 Hs) Hr Hx1 Hy1 Hz1)
    as (l1 & st1' & H1 & Hv1 & Hg1).
  destruct (rgate_result (Some s) angle_scale st2 _ r0 r1 r2 g x y z
              (seed_if_given_valid s st2 Hs) Hr Hx2 Hy2 Hz2)
    as (l2 & st2' & H2 & Hv2 & Hg2).
  eexists _, st1', _, st2', _. repeat split; try eassumption. congruence.
Qed.

Local Abbreviation run :=
  (GatesSpec.run np_sin np_cos expm seed_state random_rand3 unitary_group_rvs).
Local Abbreviation run_all :=
  (Session.run_all np_sin np_cos expm seed_state random_rand3 unitary_group_rvs).

Lemma run_alive op st node st' :
  run op st = Ok (node, st') → is_Some (heap st' !! tensor node).
Proof.
  destruct op as [gate|seed angle_scale|seed]; simpl.
  - unfold call_gate. destruct (ns st !! gate) as [[l|m n|]|]; try done.
    intros [= <- <-]; simpl. rewrite lookup_insert_eq. by eexists.
  - unfold Gates.rgate.
    destruct (seed_if_given seed_state seed st) as [st1|]; [|done]; simpl.
    destruct (random_rand3 (random st1)) as [[[r0 r1] r2] g].
    destruct (global_array _ "_x_matrix"); [|done]; simpl.
    destruct (global_array _ "_y_matrix"); [|done]; simpl.
    destruct (global_array _ "_z_matrix"); [|done]; simpl.
    intros [= <- <-]; simpl. rewrite lookup_insert_eq. by eexists.
  - unfold Gates.random_two_qubit_gate.
    destruct (seed_if_given seed_state seed st) as [st1|]; [|done]; simpl.
    destruct (unitary_group_rvs (random st1)) as [u g]; simpl.
    intros [= <- <-]; simpl. rewrite lookup_insert_eq. by eexists.
Qed.

(** X16: whatever sequence of calls of the fixed-gate constructors, of
    [rgate] and of [random_two_qubit_gate] a program makes, no two of the
    nodes it gets share their tensor, none of them holds an array that
    existed before the first call, and every array that existed then
    still has its elements after the last call. *)
Theorem nodes_never_share (ops : list operation) st (nodes : list Node) st' :
  run_all ops st = Ok (nodes, st') →
  NoDup (map tensor nodes)
  ∧ Forall (λ n, (tensor n ∉ dom (heap st)) ∧ is_Some (heap st' !! tensor n)) nodes
  ∧ untouched st st'.
Proof.
  revert st nodes st'. induction ops as [|op ops IH]; intros st nodes st'; simpl.
  - intros [= <- <-]. split; [constructor|]. split; [constructor|].
    apply untouched_refl.
  - destruct (run op st) as [[n st1]|] eqn:Hop; [|done]; simpl.
    destruct (run_all ops st1) as [[rest st2]|] eqn:Hrest; [|done]; simpl.
    intros [= <- <-].
    destruct (run_untouched _ _ _ _ _ _ _ _ _ _ _ Hop) as [Hu1 Hf1].
    pose proof (run_alive _ _ _ _ Hop) as Ha1.
    destruct (IH _ _ _ Hrest) as (Hnd & Hall & Hu2).
    assert (Hsub : ∀ k, k ∈ dom (heap st) → k ∈ dom (heap st1)).
    { intros k [b Hb]%elem_of_dom. apply elem_of_dom. exists b. by apply Hu1. }
    rewrite Forall_forall in Hall.
    split; [|split].
    + simpl. constructor; [|done].
      intros (m & Heq & Hin)%list_elem_of_fmap.
      destruct (Hall m Hin) as [Hfresh _]. apply Hfresh. rewrite <- Heq.
      by apply elem_of_dom.
    + constructor.
      * split; [done|]. destruct Ha1 as [b Hb]. exists b. by apply Hu2.
      * apply Forall_forall. intros m Hin. destruct (Hall m Hin) as [Hfresh Halive].
        split; [|done]. intros Hk. apply Hfresh. by apply Hsub.
    + by eapply untouched_trans.
Qed.

(** X15: in the imported module each fixed gate can be called under its
    name and under its name followed by "gate"; both calls return a node
    named after the gate whose tensor is a new array, one that did not
    exist before the call and so is not the array of the table, holding
    the converted matrix of the gate, of shape (2, 2) for the
    single-qubit gates and (2, 2, 2, 2) for the two-qubit gates; the
    arrays that existed keep their elements. *)
Theorem fixed_gate_aliases (g : rng) st (b : string * ndarray) :
  load npdtype g = Ok st →
  b ∈ gate_table →
  ∃ m n1 st1 n2 st2,
    ns st !! b.1 = Some (VPartial m b.1)
    ∧ ns st !! (b.1 +:+ "gate") = Some (VPartial m b.1)
    ∧ heap st !! m = Some (astype b.2 npdtype)
    ∧ call_gate b.1 st = Ok (n1, st1)
    ∧ call_gate (b.1 +:+ "gate") st = Ok (n2, st2)
    ∧ name n1 = Some b.1 ∧ name n2 = Some b.1
    ∧ heap st1 !! tensor n1 = Some (astype b.2 npdtype)
    ∧ heap st2 !! tensor n2 = Some (astype b.2 npdtype)
    ∧ (tensor n1 ∉ dom (heap st)) ∧ (tensor n2 ∉ dom (heap st))
    ∧ tensor n1 ≠ m ∧ tensor n2 ≠ m
    ∧ untouched st st1 ∧ untouched st st2
    ∧ (shape b.2 = [2; 2] ∨ shape b.2 = [2; 2; 2; 2]).
Proof.
  intros Hl Hb. apply (load_table npdtype rng) in Hl as [Ht _].
  assert (Hshape : Forall (λ b, shape b.2 = [2; 2] ∨ shape b.2 = [2; 2; 2; 2])
                     gate_table).
  { repeat apply Forall_cons_2; [..|apply Forall_nil_2]; vm_compute; auto. }
  rewrite Forall_forall in Ht, Hshape.
  destruct (Ht b Hb) as (m & Hn & Hng & Hm).
  destruct (call_gate_spec b.1 m b.1 _ st Hn Hm)
    as (n1 & st1 & Hc1 & Hname1 & Hf1 & Hm1 & Hh1 & Hu1).
  destruct (call_gate_spec (b.1 +:+ "gate") m b.1 _ st Hng Hm)
    as (n2 & st2 & Hc2 & Hname2 & Hf2 & Hm2 & Hh2 & Hu2).
  exists m, n1, st1, n2, st2.
  split; [done|]. split; [done|]. split; [done|]. split; [done|].
  split; [done|]. split; [done|]. split; [done|].
  split; [rewrite Hh1; apply lookup_insert_eq|].
  split; [rewrite Hh2; apply lookup_insert_eq|].
  split; [done|]. split; [done|]. split; [done|]. split; [done|].
  split; [done|]. split; [done|]. by apply Hshape.
Qed.

End Numerics.

Lemma matrix_names_witness :
  meta_gate_step Examples.complex128 (State (rng := nat) ∅ ∅ 0) "zero_state"
  = Ok (State ∅ ∅ 0).
Proof.
  destruct (matrix_names Examples.complex128 nat "x" "zero_state" (State ∅ ∅ 0))
    as (_ & _ & Hskip).
  apply Hskip. reflexivity.
Defined.

Lemma meta_gate_step_registers_witness :
  ∃ m st',
    meta_gate_step Examples.complex128
      (assign_array (State (rng := nat) ∅ ∅ 0) ("_x_matrix", _x_matrix))
      "_x_matrix" = Ok st'
    ∧ ns st' !! "x" = Some (VPartial m "x")
    ∧ ns st' !! "xgate" = Some (VPartial m "x").
Proof.
  destruct (meta_gate_step_registers Examples.complex128 nat "x" 0 _x_matrix 2 [2]
              (assign_array (State ∅ ∅ 0) ("_x_matrix", _x_matrix)))
    as (m & st' & Hstep & _ & Hns & _).
  - reflexivity.
  - reflexivity.
  - reflexivity.
  - discriminate.
  - exists m, st'. split; [exact Hstep|]. rewrite Hns. split.
    + apply lookup_insert_eq.
    + rewrite lookup_insert_ne by discriminate. apply lookup_insert_eq.
Defined.

Lemma random_two_qubit_gate_node_witness :
  ∃ l st',
    Gates.random_two_qubit_gate Examples.seed_state Examples.unitary_group_rvs
      None (State (rng := nat) ∅ ∅ 0)
    = Ok ({| tensor := l; name := Some "R2Q" |}, st')
    ∧ random st' = 1.
Proof.
  destruct (random_two_qubit_gate_node nat Examples.seed_state
              Examples.unitary_group_rvs None (State ∅ ∅ 0) (State ∅ ∅ 0)
              _swap_matrix 1)
    as (l & v & st' & Hrun & _ & _ & _ & _ & _ & Hg); [reflexivity..|].
  exists l, st'. split; assumption.
Defined.

Lemma seeded_two_qubit_gate_reproducible_witness :
  ∃ n1 st1 n2 st2,
    Gates.random_two_qubit_gate Examples.seed_state Examples.unitary_group_rvs
      (Some 42%Z) (State (rng := nat) ∅ ∅ 0) = Ok (n1, st1)
    ∧ Gates.random_two_qubit_gate Examples.seed_state Examples.unitary_group_rvs
        (Some 42%Z) (State (rng := nat) ∅ ∅ 7) = Ok (n2, st2)
    ∧ random st1 = random st2.
Proof.
  destruct (seeded_two_qubit_gate_reproducible nat Examples.seed_state
              Examples.unitary_group_rvs 42%Z (State ∅ ∅ 0) (State ∅ ∅ 7))
    as (n1 & st1 & n2 & st2 & v & H1 & H2 & _ & _ & Hg); [lia|].
  exists n1, st1, n2, st2. repeat split; assumption.
Defined.

Lemma seeded_rgate_reproducible_witness :
  ∃ st n1 st1 n2 st2,
    load Examples.complex128 0 = Ok st
    ∧ Gates.rgate Examples.identity Examples.identity Examples.no_expm
        Examples.seed_state Examples.random_rand3 (Some 42%Z) 1.0%float st
      = Ok (n1, st1)
    ∧ Gates.rgate Examples.identity Examples.identity Examples.no_expm
        Examples.seed_state Examples.random_rand3 (Some 42%Z) 1.0%float
        {| ns := ns st; heap := heap st; random := 99 |}
      = Ok (n2, st2)
    ∧ random st1 = random st2.
Proof.
  destruct (gates_load_ok Examples.complex128 nat 0) as [st Hst].
  destruct (load_table Examples.complex128 nat 0 st Hst) as (_ & Hx & Hy & Hz).
  destruct (seeded_rgate_reproducible Examples.identity Examples.identity
              Examples.no_expm nat Examples.seed_state Examples.random_rand3
              42%Z 1.0%float st {| ns := ns st; heap := heap st; random := 99 |}
              _x_matrix _y_matrix _z_matrix)
    as (n1 & st1 & n2 & st2 & v & H1 & H2 & _ & _ & Hg);
    [lia|assumption..|].
  exists st, n1, st1, n2, st2. repeat split; assumption.
Defined.

Lemma fixed_gate_aliases_witness :
  ∃ st n1 st1 n2 st2,
    load Examples.complex128 0 = Ok st
    ∧ call_gate "cnot" st = Ok (n1, st1)
    ∧ call_gate "cnotgate" st = Ok (n2, st2)
    ∧ name n1 = Some "cnot" ∧ name n2 = Some "cnot".
Proof.
  destruct (gates_load_ok Examples.complex128 nat 0) as [st Hst].
  destruct (fixed_gate_aliases Examples.complex128 nat 0 st
              ("cnot", reshape _cnot_matrix [2; 2; 2; 2]) Hst)
    as (m & n1 & st1 & n2 & st2 & _ & _ & _ & H1 & H2 & Hn1 & Hn2 & _).
  - unfold gate_table. repeat constructor.
  - exists st, n1, st1, n2, st2. repeat split; assumption.
Defined.

Lemma nodes_never_share_witness :
  ∃ st nodes st',
    load Examples.complex128 0 = Ok st
    ∧ Session.run_all Examples.identity Examples.identity Examples.no_expm
        Examples.seed_state Examples.random_rand3 Examples.unitary_group_rvs
        [CallGate "h"; Rgate None 1.0%float; CallGate "h";
         RandomTwoQubitGate (Some 3%Z)] st
      = Ok (nodes, st')
    ∧ NoDup (map tensor nodes).
Proof.
  destruct (gates_load_ok Examples.complex128 nat 0) as [st Hst].
  destruct (Session.run_all Examples.identity Examples.identity Examples.no_expm
              Examples.seed_state Examples.random_rand3 Examples.unitary_group_rvs
              [CallGate "h"; Rgate None 1.0%float; CallGate "h";
               RandomTwoQubitGate (Some 3%Z)] st) as [[nodes st']|e] eqn:E.
  - exists st, nodes, st'. split; [exact Hst|]. split; [exact E|].
    exact (proj1 (nodes_never_share Examples.identity Examples.identity
                    Examples.no_expm nat Examples.seed_state Examples.random_rand3
                    Examples.unitary_group_rvs _ st nodes st' E)).
  - exfalso. vm_compute in Hst. injection Hst as <-. vm_compute in E. discriminate.
Defined.

End GatesMore.
